(** * GeologicalToolbox: the line integrity engine of [Geometries.py]

    A shallow embedding of [GeoPoint] and [Line] from
    [ModellingToolbox/Resources/Geometries.py] and of the coordinate
    getters of [Resources/GeoObject.py].

    Python objects live in a store: a [GeoPoint] is reached through a
    reference, the point list of a line is a list of references, and
    [list.remove] compares references (the classes define no [__eq__], so
    [==] between points is object identity).  Coordinates are IEEE binary64
    numbers, as Python's [float].  Methods run in a state monad whose
    exceptions keep the state reached when they were raised.

    What is left out, and where the model stands for the code:
    - [self.points] is taken as a Python list.  The ordering list of
      SQLAlchemy also renumbers on [insert], [remove] and [del]; only the
      explicit [reorder()] that ends [__remove_doubled_points] is modelled,
      which gives every point still in the sequence its final [line_pos].
      The [line_pos] of a point that a call has taken out of the line is
      not what the code leaves there.
    - A slice assignment [self.points[a:b] = xs] is the one of a Python
      list.  The instrumented list emulates it by repeated [insert]; the two
      agree when no point is given, and on a line with points for an index
      from minus the length up to the length, [[-1:-1]] included; nothing
      else is stated about where [insert_points] puts points.
    - An index is an unbounded integer; [list.insert] refuses one that does
      not fit a machine word, so statements about [insert_point] at an index
      beyond the line keep to indices that fit.
    - Arguments are typed: a position is an integer, a coordinate a float,
      a flag a boolean, so [int(...)], [float(...)] and [bool(...)] have
      nothing to convert.
    - [==] on tuples first tests whether two components are one object; for
      floats this matters for NaN only, and the comparison here is the IEEE
      one throughout: a point with a NaN coordinate is on its own place for
      the code and on no place for the model.
    - [AbstractDBObject] (names, comments, the [session] attribute) and the
      string representations play no part. *)

From Stdlib Require Import ZArith List Bool Lia Floats Permutation Sorted.
Import ListNotations.

Set Implicit Arguments.

(** ** Python lists *)

Module PyList.
Section Ops.
Context {A : Type}.

(** The offset [i] stands for in [l[i]]: negative offsets count from the
    end, anything outside the list is [None] ([IndexError]). *)
Definition norm_index (l : list A) (i : Z) : option nat :=
  let n := Z.of_nat (length l) in
  let j := if (i <? 0)%Z then (i + n)%Z else i in
  if ((0 <=? j) && (j <? n))%Z then Some (Z.to_nat j) else None.

(** [l[i]] *)
Definition getitem (l : list A) (i : Z) : option A :=
  match norm_index l i with
  | Some k => nth_error l k
  | None => None
  end.

(** How a slice bound is clipped: [l[i:...]] with [i] negative counts from
    the end, and the result is kept inside [0..len(l)]. *)
Definition clip (l : list A) (i : Z) : nat :=
  let n := Z.of_nat (length l) in
  let j := if (i <? 0)%Z then (i + n)%Z else i in
  Z.to_nat (Z.min (Z.max j 0) n).

(** [l.insert(i, x)] *)
Definition insert (l : list A) (i : Z) (x : A) : list A :=
  let k := clip l i in firstn k l ++ x :: skipn k l.

(** [l[start:stop] = xs] *)
Definition setslice (l : list A) (start stop : Z) (xs : list A) : list A :=
  let lo := clip l start in
  let hi := Nat.max lo (clip l stop) in
  firstn lo l ++ xs ++ skipn hi l.

(** [del l[i]] *)
Definition delitem (l : list A) (i : Z) : option (list A) :=
  match norm_index l i with
  | Some k => Some (firstn k l ++ skipn (S k) l)
  | None => None
  end.

Variable eqb : A -> A -> bool.

(** [l.remove(x)]: the first element equal to [x] goes; [None] is the
    [ValueError] of a list without it. *)
Fixpoint remove (l : list A) (x : A) : option (list A) :=
  match l with
  | [] => None
  | y :: t =>
      if eqb y x then Some t
      else match remove t x with
           | Some t' => Some (y :: t')
           | None => None
           end
  end.
End Ops.
End PyList.

(** ** Objects *)

(** A reference to a [GeoPoint] object (its identity). *)
Definition ref := nat.

(** [Resources.Stratigraphy.StratigraphicObject] is only imported by the
    module; a horizon is taken here as the identity of such an object. *)
Definition StratigraphicObject := nat.

(** The values a caller can pass where a point or a horizon is expected. *)
Inductive pyobj : Type :=
| PyNone
| PyGeoPoint (r : ref)
| PyStratigraphicObject (s : StratigraphicObject)
| PyOther (tag : nat).

(** The columns and relations of [GeoPoint] ([east], [north], [alt] come
    from [AbstractGeoObject]); [id] is the primary key, which the methods
    of a line neither read nor write. *)
Record GeoPoint : Type := mkGeoPoint {
  id : Z;
  east : float;
  north : float;
  alt : float;
  has_z : bool;
  hor : option StratigraphicObject;
  horizon_id : option Z;
  line_id : Z;
  line_pos : Z
}.

(** The columns and relations of [Line]; [points] holds references. *)
Record Line : Type := mkLine {
  l_id : Z;
  closed : bool;
  l_hor : option StratigraphicObject;
  l_horizon_id : option Z;
  points : list ref
}.

(** The store of point objects and the line the methods run on ([self]). *)
Record world : Type := mkWorld {
  heap : ref -> GeoPoint;
  self : Line
}.

Definition set_hor (v : option StratigraphicObject) (p : GeoPoint) : GeoPoint :=
  mkGeoPoint (id p) (east p) (north p) (alt p) (has_z p) v (horizon_id p) (line_id p) (line_pos p).

Definition set_horizon_id (v : option Z) (p : GeoPoint) : GeoPoint :=
  mkGeoPoint (id p) (east p) (north p) (alt p) (has_z p) (hor p) v (line_id p) (line_pos p).

Definition set_line_pos (v : Z) (p : GeoPoint) : GeoPoint :=
  mkGeoPoint (id p) (east p) (north p) (alt p) (has_z p) (hor p) (horizon_id p) (line_id p) v.

Definition set_closed (v : bool) (l : Line) : Line :=
  mkLine (l_id l) v (l_hor l) (l_horizon_id l) (points l).

Definition set_l_hor (v : option StratigraphicObject) (l : Line) : Line :=
  mkLine (l_id l) (closed l) v (l_horizon_id l) (points l).

Definition set_l_horizon_id (v : option Z) (l : Line) : Line :=
  mkLine (l_id l) (closed l) (l_hor l) v (points l).

Definition set_points (v : list ref) (l : Line) : Line :=
  mkLine (l_id l) (closed l) (l_hor l) (l_horizon_id l) v.

(** Store update at one reference. *)
Definition upd (h : ref -> GeoPoint) (r : ref) (p : GeoPoint) : ref -> GeoPoint :=
  fun r' => if Nat.eqb r' r then p else h r'.

(** ** The monad of methods *)

Inductive exn : Type := TypeError | ValueError | IndexError.

Inductive result (A : Type) : Type :=
| Ok (a : A)
| Raise (e : exn).
Arguments Ok {A} a.
Arguments Raise {A} e.

(** A method body: from a state to an outcome and the state it leaves. *)
Definition M (A : Type) : Type := world -> result A * world.

Definition ret {A} (a : A) : M A := fun w => (Ok a, w).

Definition bind {A B} (m : M A) (k : A -> M B) : M B :=
  fun w =>
    match m w with
    | (Ok a, w') => k a w'
    | (Raise e, w') => (Raise e, w')
    end.

Definition raise {A} (e : exn) : M A := fun w => (Raise e, w).

Declare Scope py_scope.
Delimit Scope py_scope with py.
Notation "x <- c1 ;; c2" := (bind c1 (fun x => c2))
  (at level 100, c1 at next level, right associativity) : py_scope.
Notation "c1 ;; c2" := (bind c1 (fun _ => c2))
  (at level 100, right associativity) : py_scope.
Local Open Scope py_scope.

Definition get_self : M Line := fun w => (Ok (self w), w).

Definition modify_self (f : Line -> Line) : M unit :=
  fun w => (Ok tt, mkWorld (heap w) (f (self w))).

Definition read (r : ref) : M GeoPoint := fun w => (Ok (heap w r), w).

Definition modify_point (r : ref) (f : GeoPoint -> GeoPoint) : M unit :=
  fun w => (Ok tt, mkWorld (upd (heap w) r (f (heap w r))) (self w)).

(** [None] of a list operation becomes the exception Python raises. *)
Definition lift {A} (e : exn) (o : option A) : M A :=
  match o with
  | Some a => ret a
  | None => raise e
  end.

(** [for x in l: body(x)] *)
Fixpoint for_each {A} (l : list A) (body : A -> M unit) : M unit :=
  match l with
  | [] => ret tt
  | x :: t => body x ;; for_each t body
  end.

(** [range(n - 1)] for [n] a length: empty when [n] is 0 or 1. *)
Definition range_pred (n : nat) : list nat := seq 0 (n - 1).

(** ** AbstractGeoObject: the coordinate getters *)

(** [easting], [northing], [altitude] return [float(self.east)],
    [float(self.north)], [float(self.alt)]; the altitude getter does not
    look at [has_z]. *)
Definition easting (r : ref) : M float := p <- read r ;; ret (east p).
Definition northing (r : ref) : M float := p <- read r ;; ret (north p).
Definition altitude (r : ref) : M float := p <- read r ;; ret (alt p).

(** [(p.easting, p.northing, p.altitude)] *)
Definition coord (r : ref) : M (float * float * float) :=
  e <- easting r ;; n <- northing r ;; a <- altitude r ;; ret (e, n, a).

(** [coord_1 == coord_2] on tuples of floats: componentwise [==] of IEEE
    numbers. *)
Definition coord_eqb (c1 c2 : float * float * float) : bool :=
  let '(e1, n1, a1) := c1 in
  let '(e2, n2, a2) := c2 in
  (e1 =? e2)%float && (n1 =? n2)%float && (a1 =? a2)%float.

(** ** GeoPoint *)

(** The [horizon] setter of [GeoPoint]. *)
Definition GeoPoint_set_horizon (r : ref) (value : pyobj) : M unit :=
  match value with
  | PyNone =>
      modify_point r (set_hor None) ;;
      modify_point r (set_horizon_id (Some (-1)%Z))
  | PyStratigraphicObject s => modify_point r (set_hor (Some s))
  | _ => raise TypeError
  end.

(** [del_z] and [use_z] *)
Definition del_z (r : ref) : M unit :=
  modify_point r (fun p =>
    mkGeoPoint (id p) (east p) (north p) 0%float false (hor p) (horizon_id p) (line_id p) (line_pos p)).

Definition use_z (r : ref) : M unit :=
  modify_point r (fun p =>
    mkGeoPoint (id p) (east p) (north p) (alt p) true (hor p) (horizon_id p) (line_id p) (line_pos p)).

(** ** Line *)

(** The value of [self.horizon] as an object again. *)
Definition horizon_obj (o : option StratigraphicObject) : pyobj :=
  match o with
  | Some s => PyStratigraphicObject s
  | None => PyNone
  end.

(** [__check_line]: every point of the line takes the line's horizon. *)
Definition check_line : M unit :=
  l <- get_self ;;
  for_each (points l) (fun point =>
    l' <- get_self ;;
    GeoPoint_set_horizon point (horizon_obj (l_hor l'))).

(** [self.points.remove(p)] *)
Definition points_remove (p : ref) : M unit :=
  l <- get_self ;;
  pts <- lift ValueError (PyList.remove Nat.eqb (points l) p) ;;
  modify_self (set_points pts).

(** [self.points[i]] *)
Definition points_getitem (i : Z) : M ref :=
  l <- get_self ;;
  lift IndexError (PyList.getitem (points l) i).

(** [del self.points[i]] *)
Definition points_delitem (i : Z) : M unit :=
  l <- get_self ;;
  pts <- lift IndexError (PyList.delitem (points l) i) ;;
  modify_self (set_points pts).

(** [self.points.reorder()] of the ordering list: every point of the list
    gets its index as [line_pos]. *)
Fixpoint reorder_from (i : nat) (l : list ref) : M unit :=
  match l with
  | [] => ret tt
  | r :: t => modify_point r (set_line_pos (Z.of_nat i)) ;; reorder_from (S i) t
  end.

Definition points_reorder : M unit :=
  l <- get_self ;; reorder_from 0 (points l).

(** The body of the loop of [__remove_doubled_points] at index [i] of the
    copy [tmp_pnts]. *)
Definition compare_adjacent (tmp_pnts : list ref) (i : nat) : M unit :=
  a <- lift IndexError (nth_error tmp_pnts i) ;;
  b <- lift IndexError (nth_error tmp_pnts (i + 1)) ;;
  coord_1 <- coord a ;;
  coord_2 <- coord b ;;
  if coord_eqb coord_1 coord_2 then points_remove b else ret tt.

(** The loop of [__remove_doubled_points] over the copy [tmp_pnts]. *)
Definition remove_adjacent (tmp_pnts : list ref) : M unit :=
  for_each (range_pred (length tmp_pnts)) (compare_adjacent tmp_pnts).

(** The test of first against last point of [__remove_doubled_points]. *)
Definition fold_closure : M unit :=
  first <- points_getitem 0 ;;
  last <- points_getitem (-1) ;;
  coord_1 <- coord first ;;
  coord_2 <- coord last ;;
  if coord_eqb coord_1 coord_2
  then points_delitem (-1) ;; modify_self (set_closed true)
  else ret tt.

(** [__remove_doubled_points] *)
Definition remove_doubled_points : M unit :=
  l <- get_self ;;
  remove_adjacent (points l) ;;
  fold_closure ;;
  points_reorder.

(** The [horizon] setter of [Line]. *)
Definition Line_set_horizon (value : pyobj) : M unit :=
  match value with
  | PyNone =>
      modify_self (set_l_hor None) ;;
      modify_self (set_l_horizon_id (Some (-1)%Z))
  | PyStratigraphicObject s => modify_self (set_l_hor (Some s))
  | _ => raise TypeError
  end ;;
  check_line.

(** [type(pnt) is not GeoPoint] raises [e]. *)
Definition expect_GeoPoint (e : exn) (pnt : pyobj) : M unit :=
  match pnt with
  | PyGeoPoint _ => ret tt
  | _ => raise e
  end.

(** The references of a list of objects known to be points. *)
Definition refs_of (pts : list pyobj) : list ref :=
  flat_map (fun o => match o with PyGeoPoint r => [r] | _ => [] end) pts.

(** [Line.__init__], run on the fresh object. *)
Definition Line_init (closed_arg : bool) (horizon : pyobj) (pts : list pyobj) : M unit :=
  for_each pts (expect_GeoPoint ValueError) ;;
  modify_self (set_closed closed_arg) ;;
  Line_set_horizon horizon ;;
  modify_self (set_points (refs_of pts)) ;;
  remove_doubled_points ;;
  check_line.

(** A line object before [__init__] has run: no points, nothing set. *)
Definition fresh_line : Line := mkLine 0 false None None [].

(** [Line(closed, horizon, points)] over the store [h]. *)
Definition new_Line (h : ref -> GeoPoint) (closed_arg : bool) (horizon : pyobj)
    (pts : list pyobj) : result unit * world :=
  Line_init closed_arg horizon pts (mkWorld h fresh_line).

(** [insert_point] *)
Definition insert_point (point : pyobj) (position : Z) : M unit :=
  match point with
  | PyGeoPoint r =>
      modify_self (fun l => set_points (PyList.insert (points l) position r) l)
  | _ => raise TypeError
  end ;;
  remove_doubled_points ;;
  check_line.

(** [insert_points] *)
Definition insert_points (pts : list pyobj) (position : Z) : M unit :=
  for_each pts (expect_GeoPoint TypeError) ;;
  l <- get_self ;;
  (if (Z.of_nat (length (points l)) <=? position)%Z
   then modify_self (set_points (PyList.setslice (points l) (-1) (-1) (refs_of pts)))
   else modify_self (set_points (PyList.setslice (points l) position position (refs_of pts)))) ;;
  remove_doubled_points ;;
  check_line.

(** [delete_point] *)
Definition delete_point (point : pyobj) : M unit :=
  match point with
  | PyGeoPoint r => points_remove r
  | _ => raise TypeError
  end ;;
  remove_doubled_points ;;
  check_line.

Section DeleteByCoordinates.
(** [Resources.constants.float_precision] *)
Variable float_precision : float.

(** The test of the scan of [delete_point_by_coordinates]. *)
Definition coordinates_match (easting' northing' altitude' : float) (pnt : ref) : M bool :=
  e <- easting pnt ;;
  n <- northing pnt ;;
  a <- altitude pnt ;;
  p <- read pnt ;;
  ret ((abs (e - easting') <? float_precision)%float
       && (abs (n - northing') <? float_precision)%float
       && ((abs (a - altitude') <? float_precision)%float || negb (has_z p))).

(** The loop over the copy [self.points[:]], left by [return] at the
    first match. *)
Fixpoint scan_points (easting' northing' altitude' : float) (snapshot : list ref) : M unit :=
  match snapshot with
  | [] => raise ValueError
  | pnt :: rest =>
      found <- coordinates_match easting' northing' altitude' pnt ;;
      if found
      then points_remove pnt ;; remove_doubled_points ;; check_line
      else scan_points easting' northing' altitude' rest
  end.

(** [delete_point_by_coordinates] *)
Definition delete_point_by_coordinates (easting' northing' altitude' : float) : M unit :=
  l <- get_self ;;
  scan_points easting' northing' altitude' (points l).
End DeleteByCoordinates.

(** The public calls that change a line, as a caller issues them. *)
Inductive call : Type :=
| CallInit (closed_arg : bool) (horizon : pyobj) (pts : list pyobj)
| CallInsertPoint (point : pyobj) (position : Z)
| CallInsertPoints (pts : list pyobj) (position : Z)
| CallDeletePoint (point : pyobj)
| CallDeleteByCoordinates (easting' northing' altitude' : float)
| CallSetHorizon (value : pyobj).

Definition run (float_precision : float) (c : call) : M unit :=
  match c with
  | CallInit closed_arg horizon pts => Line_init closed_arg horizon pts
  | CallInsertPoint point position => insert_point point position
  | CallInsertPoints pts position => insert_points pts position
  | CallDeletePoint point => delete_point point
  | CallDeleteByCoordinates e n a => delete_point_by_coordinates float_precision e n a
  | CallSetHorizon value => Line_set_horizon value
  end.

(** ** Reading a state *)

(** The coordinate triple the getters return for the object at [r]. *)
Definition coord_of (h : ref -> GeoPoint) (r : ref) : float * float * float :=
  (east (h r), north (h r), alt (h r)).

(** Whether the comparison of [__remove_doubled_points] holds of two points. *)
Definition same_place (h : ref -> GeoPoint) (a b : ref) : bool :=
  coord_eqb (coord_of h a) (coord_of h b).

(** Every member point carries the horizon of the line. *)
Definition horizon_propagated (w : world) : Prop :=
  forall r, In r (points (self w)) -> hor (heap w r) = l_hor (self w).

(** The ordinals of the member points, in list order. *)
Definition ordinals (w : world) : list Z :=
  map (fun r => line_pos (heap w r)) (points (self w)).

(** Two states that no reader of the store can tell apart. *)
Definition same_world (w1 w2 : world) : Prop :=
  self w1 = self w2 /\ forall r, heap w1 r = heap w2 r.

(** ** A store to run the scenarios on *)

Definition point_at (e n a : float) (z : bool) : GeoPoint :=
  mkGeoPoint 0 e n a z None None (-1) (-1).

(** Objects 0 and 4 lie on the same place, 6 and 7 differ in their stored
    altitude only and have no z value. *)
Definition sample_heap : ref -> GeoPoint := fun r =>
  match r with
  | 0 => point_at 0 0 0 false
  | 1 => point_at 1 1 0 false
  | 2 => point_at 2 2 0 false
  | 3 => point_at 3 3 0 false
  | 4 => point_at 0 0 0 false
  | 5 => point_at 5 5 0 false
  | 6 => point_at 0 0 1 false
  | 7 => point_at 0 0 2 false
  | _ => point_at 9 9 9 true
  end.

(** ** The adjacent-duplicate pass, as the specification words it *)

(** One pass from left to right over the sequence as it was when the pass
    began: a point goes when it lies on the place of the point right before
    it in that sequence, whether or not that one went too. *)
Fixpoint pass_after (h : ref -> GeoPoint) (prev : ref) (l : list ref) : list ref :=
  match l with
  | [] => []
  | b :: t =>
      if same_place h prev b then pass_after h b t else b :: pass_after h b t
  end.

Definition single_pass (h : ref -> GeoPoint) (l : list ref) : list ref :=
  match l with
  | [] => []
  | a :: t => a :: pass_after h a t
  end.

(** ** The session *)

(** The rows of the two tables a session reads. *)
Record database : Type := mkDatabase {
  geopoints : list GeoPoint;
  lines : list Line
}.

(** The statements [load_in_extent_from_db] sends. *)
Inductive statement : Type :=
| SelectLineIds (min_easting max_easting min_northing max_northing : float)
| SelectLines (ids : list Z).

(** [sq.between(x, lo, hi)]: both ends belong to the range. *)
Definition between (x lo hi : float) : bool :=
  ((lo <=? x) && (x <=? hi))%float.

(** The first query: [line_id] of the points with a line inside the extent. *)
Definition select_line_ids (db : database)
    (min_easting max_easting min_northing max_northing : float) : list Z :=
  map line_id
    (filter (fun p => between (north p) min_northing max_northing)
      (filter (fun p => between (east p) min_easting max_easting)
        (filter (fun p => negb (line_id p =? -1)%Z) (geopoints db)))).

(** [set(...)] of a list of integers. *)
Definition py_set (l : list Z) : list Z := nodup Z.eq_dec l.

(** [order_by(cls.id)] *)
Fixpoint insert_by_id (x : Line) (l : list Line) : list Line :=
  match l with
  | [] => [x]
  | y :: t => if (l_id x <=? l_id y)%Z then x :: l else y :: insert_by_id x t
  end.

Definition order_by_id (l : list Line) : list Line := fold_right insert_by_id [] l.

(** The second query: the lines whose [id] is [in_] the set, by [id]. *)
Definition select_lines (db : database) (ids : list Z) : list Line :=
  order_by_id (filter (fun l => existsb (Z.eqb (l_id l)) ids) (lines db)).

(** [Line.load_in_extent_from_db]: the lines returned and the statements
    sent, in order.  An argument that is no session is [None]. *)
Definition load_in_extent_from_db (session : option database)
    (min_easting max_easting min_northing max_northing : float)
    : result (list Line) * list statement :=
  match session with
  | None => (Raise TypeError, [])
  | Some db =>
      let first_query := SelectLineIds min_easting max_easting min_northing max_northing in
      let points' :=
        py_set (select_line_ids db min_easting max_easting min_northing max_northing) in
      if Nat.eqb (length points') 0 then (Ok [], [first_query])
      else (Ok (select_lines db points'), [first_query; SelectLines points'])
  end.

(** A point of the table that belongs to the line with identifier [i] and
    lies in the closed rectangle. *)
Definition attached_in_extent (i : Z)
    (min_easting max_easting min_northing max_northing : float) (p : GeoPoint) : Prop :=
  line_id p = i /\ line_id p <> (-1)%Z /\
  (min_easting <=? east p)%float = true /\ (east p <=? max_easting)%float = true /\
  (min_northing <=? north p)%float = true /\ (north p <=? max_northing)%float = true.

(** Lines listed by ascending identifier. *)
Definition by_id (a b : Line) : Prop := (l_id a <= l_id b)%Z.

(** Whether an argument object is a point, and whether a call was handed
    something else where it wants points. *)
Definition is_GeoPoint (o : pyobj) : bool :=
  match o with
  | PyGeoPoint _ => true
  | _ => false
  end.

Definition has_non_point (c : call) : bool :=
  match c with
  | CallInit _ _ pts => existsb (fun o => negb (is_GeoPoint o)) pts
  | CallInsertPoint point _ => negb (is_GeoPoint point)
  | CallInsertPoints pts _ => existsb (fun o => negb (is_GeoPoint o)) pts
  | CallDeletePoint point => negb (is_GeoPoint point)
  | _ => false
  end.

(** The exception class each call uses for a non-point: the constructor
    raises [ValueError], the methods raise [TypeError]. *)
Definition non_point_error (c : call) : exn :=
  match c with
  | CallInit _ _ _ => ValueError
  | _ => TypeError
  end.

(** Membership of a reference in a sequence, as a test. *)
Definition mem (r : ref) (l : list ref) : bool := existsb (Nat.eqb r) l.

(** What the [horizon] setter of [GeoPoint] makes of a point when it is
    given the horizon [o] of a line. *)
Definition with_horizon (o : option StratigraphicObject) (p : GeoPoint) : GeoPoint :=
  match o with
  | None => set_horizon_id (Some (-1)%Z) (set_hor None p)
  | Some s => set_hor (Some s) p
  end.

(** A method body after whose normal return the horizon is propagated. *)
Definition propagates {A} (m : M A) : Prop :=
  forall w a, fst (m w) = Ok a -> horizon_propagated (snd (m w)).

(** The test of [delete_point_by_coordinates] read off a store. *)
Definition matches_at (float_precision easting' northing' altitude' : float)
    (h : ref -> GeoPoint) (r : ref) : bool :=
  (abs (east (h r) - easting') <? float_precision)%float
  && (abs (north (h r) - northing') <? float_precision)%float
  && ((abs (alt (h r) - altitude') <? float_precision)%float || negb (has_z (h r))).

(** The store [reorder] leaves: the points of [l] numbered from [i] on. *)
Fixpoint renumber (h : ref -> GeoPoint) (i : nat) (l : list ref) : ref -> GeoPoint :=
  match l with
  | [] => h
  | r :: t => renumber (upd h r (set_line_pos (Z.of_nat i) (h r))) (S i) t
  end.

(** The two calls that end every change of the point list. *)
Definition renormalize : M unit := remove_doubled_points ;; check_line.

(** The pairs of binary64 values that [==] holds of. *)
Definition SFsame (f1 f2 : spec_float) : Prop :=
  match f1, f2 with
  | S754_zero _, S754_zero _ => True
  | S754_infinity s1, S754_infinity s2 => s1 = s2
  | S754_finite s1 m1 e1, S754_finite s2 m2 e2 => s1 = s2 /\ m1 = m2 /\ e1 = e2
  | _, _ => False
  end.

(** The lines-in-extent query as the specification words it: a line
    qualifies when some point of the table is attached to it and lies in
    the closed rectangle. *)
Definition line_in_extent (db : database)
    (min_easting max_easting min_northing max_northing : float) (l : Line) : bool :=
  existsb (fun p =>
             (line_id p =? l_id l)%Z && negb (line_id p =? -1)%Z
             && between (east p) min_easting max_easting
             && between (north p) min_northing max_northing)
          (geopoints db).

(** Two lines and the points of a ring and of a stray track. *)
Definition sample_db : database :=
  mkDatabase
    [ mkGeoPoint 1 0 0 0 false None None 8 0;
      mkGeoPoint 2 1 1 0 false None None 8 1;
      mkGeoPoint 3 5 5 0 false None None 3 0;
      mkGeoPoint 4 1 1 0 false None None (-1) (-1) ]
    [ mkLine 8 false None None [];
      mkLine 3 false None None [] ].

(** A line as a completed renormalization leaves it when points remain:
    no object twice, no point on the place of the one before it, the last
    point not on the place of the first, ordinals equal to the indices, and
    the horizon of the line on every point. *)
Definition normalized (w : world) : Prop :=
  NoDup (points (self w))
  /\ single_pass (heap w) (points (self w)) = points (self w)
  /\ (exists x t, points (self w) = x :: t /\ same_place (heap w) x (last t x) = false)
  /\ ordinals w = map Z.of_nat (seq 0 (length (points (self w))))
  /\ (forall r, In r (points (self w)) ->
        with_horizon (l_hor (self w)) (heap w r) = heap w r).

(** ** The remaining methods and queries *)

(** [l.index(x)] on a list of references: the index of the first
    occurrence, [None] for the [ValueError] of a list without it. *)
Fixpoint list_index (l : list ref) (x : ref) : option nat :=
  match l with
  | [] => None
  | y :: t =>
      if Nat.eqb y x then Some 0
      else match list_index t x with
           | Some i => Some (S i)
           | None => None
           end
  end.

(** [get_point_index]: [self.points.index(point)], with no check of the
    type; an object that is no point equals no element of the list. *)
Definition get_point_index (point : pyobj) : M Z :=
  l <- get_self ;;
  match point with
  | PyGeoPoint r =>
      i <- lift ValueError (list_index (points l) r) ;; ret (Z.of_nat i)
  | _ => raise ValueError
  end.

(** [order_by(cls.id)] on points. *)
Fixpoint insert_point_by_id (x : GeoPoint) (l : list GeoPoint) : list GeoPoint :=
  match l with
  | [] => [x]
  | y :: t => if (id x <=? id y)%Z then x :: l else y :: insert_point_by_id x t
  end.

Definition order_points_by_id (l : list GeoPoint) : list GeoPoint :=
  fold_right insert_point_by_id [] l.

(** [AbstractGeoObject.load_in_extent_from_db] for the class [GeoPoint],
    on a session; it checks neither the session nor the bounds. *)
Definition AbstractGeoObject_load_in_extent_from_db (db : database)
    (min_easting max_easting min_northing max_northing : float) : list GeoPoint :=
  order_points_by_id
    (filter (fun p => between (north p) min_northing max_northing)
      (filter (fun p => between (east p) min_easting max_easting) (geopoints db))).

(** [GeoPoint.load_all_without_lines_from_db] *)
Definition load_all_without_lines_from_db (session : option database)
    : result (list GeoPoint) :=
  match session with
  | None => Raise TypeError
  | Some db =>
      Ok (order_points_by_id (filter (fun p => (line_id p =? -1)%Z) (geopoints db)))
  end.

(** [GeoPoint.load_in_extent_without_lines_from_db] *)
Definition load_in_extent_without_lines_from_db (session : option database)
    (min_easting max_easting min_northing max_northing : float)
    : result (list GeoPoint) :=
  match session with
  | None => Raise TypeError
  | Some db =>
      Ok (order_points_by_id
            (filter (fun p => (line_id p =? -1)%Z)
              (filter (fun p => between (north p) min_northing max_northing)
                (filter (fun p => between (east p) min_easting max_easting)
                  (geopoints db)))))
  end.

(** Points listed by ascending identifier. *)
Definition point_by_id (a b : GeoPoint) : Prop := (id a <= id b)%Z.

(** A point inside the closed rectangle. *)
Definition in_extent (min_easting max_easting min_northing max_northing : float)
    (p : GeoPoint) : bool :=
  between (east p) min_easting max_easting && between (north p) min_northing max_northing.

(** ** Relations between the state before and after a call *)

(** A method body that relates every state to the one it leaves, whether
    it returns or raises. *)
Definition keeps {A} (R : world -> world -> Prop) (m : M A) : Prop :=
  forall w, R w (snd (m w)).

(** [l1] is [l2] with some elements taken out, the others in their order. *)
Inductive subseq : list ref -> list ref -> Prop :=
| subseq_nil : subseq [] []
| subseq_skip x l1 l2 : subseq l1 l2 -> subseq l1 (x :: l2)
| subseq_take x l1 l2 : subseq l1 l2 -> subseq (x :: l1) (x :: l2).

(** The sequence of the line has only lost points. *)
Definition only_removes (w w' : world) : Prop :=
  subseq (points (self w')) (points (self w)).

(** What the line methods leave alone in a point: key, coordinates, z flag
    and line. *)
Definition geometry_of (p : GeoPoint) : Z * float * float * float * bool * Z :=
  (id p, east p, north p, alt p, has_z p, line_id p).

Definition same_geometry (w w' : world) : Prop :=
  forall r, geometry_of (heap w' r) = geometry_of (heap w r).

(** The line keeps its key, and its flag once it is closed. *)
Definition stays_closed (w w' : world) : Prop :=
  l_id (self w') = l_id (self w)
  /\ (closed (self w) = true -> closed (self w') = true).

(** The calls that act on an existing line. *)
Definition is_method (c : call) : bool :=
  match c with
  | CallInit _ _ _ => false
  | _ => true
  end.

(** No two neighbours of the sequence lie on one place. *)
Definition no_adjacent_duplicates (h : ref -> GeoPoint) (l : list ref) : Prop :=
  forall l1 a b l2, l = l1 ++ a :: b :: l2 -> same_place h a b = false.

(** * Properties *)

Unset Implicit Arguments.

(** ** The monad *)

Lemma bind_ok {A B} (m : M A) (k : A -> M B) w a w1 :
  m w = (Ok a, w1) -> bind m k w = k a w1.
Proof. unfold bind. now intros ->. Qed.

Lemma bind_raise {A B} (m : M A) (k : A -> M B) w e w1 :
  m w = (Raise e, w1) -> bind m k w = (Raise e, w1).
Proof. unfold bind. now intros ->. Qed.

Lemma bind_Ok_inv {A B} (m : M A) (k : A -> M B) w b w' :
  bind m k w = (Ok b, w') ->
  exists a w1, m w = (Ok a, w1) /\ k a w1 = (Ok b, w').
Proof.
  unfold bind. destruct (m w) as [[a|e] w1]; intros H.
  - now exists a, w1.
  - discriminate.
Qed.

Lemma fst_bind_Ok_inv {A B} (m : M A) (k : A -> M B) w b :
  fst (bind m k w) = Ok b ->
  exists a w1, m w = (Ok a, w1) /\ bind m k w = k a w1.
Proof.
  unfold bind. destruct (m w) as [[a|e] w1]; simpl; intros H.
  - now exists a, w1.
  - discriminate.
Qed.

(** ** Argument checks *)

Lemma check_points_ok e pts w :
  existsb (fun o => negb (is_GeoPoint o)) pts = false ->
  for_each pts (expect_GeoPoint e) w = (Ok tt, w).
Proof.
  induction pts as [|o pts IH]; simpl; intros H; [reflexivity|].
  apply orb_false_iff in H as [Ho Hpts].
  destruct o; try discriminate. unfold bind; simpl. now apply IH.
Qed.

Lemma check_points_raise e pts w :
  existsb (fun o => negb (is_GeoPoint o)) pts = true ->
  for_each pts (expect_GeoPoint e) w = (Raise e, w).
Proof.
  induction pts as [|o pts IH]; simpl; intros H; [discriminate|].
  destruct o; try reflexivity. unfold bind; simpl. now apply IH.
Qed.

(** C8.  A call that is handed a non-point where it wants a point (the
    constructor, [insert_point], [insert_points] with any such element,
    [delete_point]) raises its type-mismatch exception and leaves the state
    exactly as it was: sequence, ordinals, closed flag and horizons. *)
Theorem type_errors_are_atomic (float_precision : float) (c : call) (w : world) :
  has_non_point c = true ->
  run float_precision c w = (Raise (non_point_error c), w).
Proof.
  destruct c as [cl hz pts|point pos|pts pos|point|e n a|v]; simpl; intros H;
    try discriminate.
  - unfold Line_init. now rewrite (bind_raise _ _ _ _ _ (check_points_raise _ _ _ H)).
  - destruct point; try discriminate; reflexivity.
  - unfold insert_points. now rewrite (bind_raise _ _ _ _ _ (check_points_raise _ _ _ H)).
  - destruct point; try discriminate; reflexivity.
Qed.

Lemma type_errors_are_atomic_witness :
  insert_points [PyGeoPoint 2; PyOther 0; PyGeoPoint 3] 1
    (mkWorld sample_heap (mkLine 7 false None None [0; 1]))
  = (Raise TypeError, mkWorld sample_heap (mkLine 7 false None None [0; 1])).
Proof.
  apply (type_errors_are_atomic 0%float
           (CallInsertPoints [PyGeoPoint 2; PyOther 0; PyGeoPoint 3] 1)).
  reflexivity.
Defined.

(** ** Horizon propagation *)

Lemma with_horizon_idem o p : with_horizon o (with_horizon o p) = with_horizon o p.
Proof. destruct o, p; reflexivity. Qed.

Lemma hor_with_horizon o p : hor (with_horizon o p) = o.
Proof. destruct o; reflexivity. Qed.

Lemma mem_In r l : mem r l = true <-> In r l.
Proof.
  unfold mem. rewrite existsb_exists. split.
  - intros (x & Hx & E). apply Nat.eqb_eq in E. now subst.
  - intros H. exists r. split; [assumption|apply Nat.eqb_refl].
Qed.

Lemma GeoPoint_set_horizon_spec r o h L :
  exists h',
    GeoPoint_set_horizon r (horizon_obj o) (mkWorld h L) = (Ok tt, mkWorld h' L) /\
    forall r', h' r' = if Nat.eqb r' r then with_horizon o (h r) else h r'.
Proof.
  destruct o as [s|]; simpl.
  - eexists; split; [reflexivity|]. intros r'. unfold upd; simpl. now destruct (Nat.eqb r' r).
  - eexists; split; [reflexivity|]. intros r'. unfold upd; simpl.
    rewrite Nat.eqb_refl. now destruct (Nat.eqb r' r).
Qed.

Lemma propagate_loop l : forall h L,
  exists h',
    for_each l (fun point =>
      l' <- get_self ;; GeoPoint_set_horizon point (horizon_obj (l_hor l'))) (mkWorld h L)
    = (Ok tt, mkWorld h' L) /\
    forall r, h' r = if mem r l then with_horizon (l_hor L) (h r) else h r.
Proof.
  induction l as [|x t IH]; intros h L.
  - exists h. split; reflexivity.
  - destruct (GeoPoint_set_horizon_spec x (l_hor L) h L) as (h1 & E1 & H1).
    destruct (IH h1 L) as (h' & E' & H').
    exists h'. split.
    + simpl. unfold bind at 1. unfold bind at 1. simpl. rewrite E1. exact E'.
    + intros r. rewrite H', H1. unfold mem; simpl. fold (mem r t).
      destruct (Nat.eqb r x) eqn:Erx; simpl.
      * apply Nat.eqb_eq in Erx; subst r.
        destruct (mem x t); [apply with_horizon_idem|reflexivity].
      * reflexivity.
Qed.

Lemma check_line_spec w :
  exists h',
    check_line w = (Ok tt, mkWorld h' (self w)) /\
    forall r, h' r = if mem r (points (self w))
                     then with_horizon (l_hor (self w)) (heap w r) else heap w r.
Proof.
  destruct w as [h L]. unfold check_line, bind at 1. simpl.
  apply propagate_loop.
Qed.

Lemma propagates_check_line : propagates check_line.
Proof.
  intros w a _. destruct (check_line_spec w) as (h' & -> & Hh'). simpl.
  intros r Hr. simpl in *. rewrite Hh'.
  apply mem_In in Hr. rewrite Hr. apply hor_with_horizon.
Qed.

Lemma propagates_bind {A B} (m : M A) (k : A -> M B) :
  (forall a, propagates (k a)) -> propagates (bind m k).
Proof.
  intros Hk w b. unfold bind. destruct (m w) as [[a|e] w1]; simpl.
  - apply Hk.
  - discriminate.
Qed.

(** Walks down a sequence of statements to the call of [check_line] that
    ends it. *)
Ltac ends_in_check_line :=
  repeat first [apply propagates_check_line | apply propagates_bind; intros].

Lemma propagates_scan_points fp e n a snapshot :
  propagates (scan_points fp e n a snapshot).
Proof.
  induction snapshot as [|pnt rest IH]; simpl.
  - intros w x H. discriminate.
  - apply propagates_bind. intros [|]; [|exact IH].
    ends_in_check_line.
Qed.

(** C6.  After any call that changes a line returns normally (the
    constructor, [insert_point], [insert_points], [delete_point],
    [delete_point_by_coordinates] and the [horizon] setter), every point of
    the line has the horizon of the line, also when that horizon is none. *)
Theorem horizon_propagated_after_every_call (float_precision : float) (c : call) (w : world) :
  fst (run float_precision c w) = Ok tt ->
  horizon_propagated (snd (run float_precision c w)).
Proof.
  assert (H : propagates (run float_precision c)).
  { destruct c; simpl.
    - unfold Line_init, Line_set_horizon. ends_in_check_line.
    - unfold insert_point. ends_in_check_line.
    - unfold insert_points. ends_in_check_line.
    - unfold delete_point. ends_in_check_line.
    - unfold delete_point_by_coordinates.
      apply propagates_bind; intros. apply propagates_scan_points.
    - unfold Line_set_horizon. ends_in_check_line. }
  apply H.
Qed.

Lemma horizon_propagated_after_every_call_witness :
  horizon_propagated
    (snd (run 0%float
            (CallInit false (PyStratigraphicObject 3)
               [PyGeoPoint 0; PyGeoPoint 1; PyGeoPoint 2])
            (mkWorld sample_heap fresh_line))).
Proof.
  apply horizon_propagated_after_every_call. reflexivity.
Defined.

(** ** Deleting by coordinates *)

Lemma coordinates_match_spec fp e n a r w :
  coordinates_match fp e n a r w = (Ok (matches_at fp e n a (heap w) r), w).
Proof. reflexivity. Qed.

Lemma scan_points_skip fp e n a pre : forall rest w,
  (forall r, In r pre -> matches_at fp e n a (heap w) r = false) ->
  scan_points fp e n a (pre ++ rest) w = scan_points fp e n a rest w.
Proof.
  induction pre as [|x pre IH]; intros rest w H; [reflexivity|].
  simpl. unfold bind at 1. rewrite coordinates_match_spec.
  rewrite (H x (or_introl eq_refl)). apply IH.
  intros r Hr. apply H. now right.
Qed.

Lemma remove_first_occurrence (pre : list ref) p post :
  ~ In p pre ->
  PyList.remove Nat.eqb (pre ++ p :: post) p = Some (pre ++ post).
Proof.
  induction pre as [|x pre IH]; simpl; intros H.
  - now rewrite Nat.eqb_refl.
  - destruct (Nat.eqb x p) eqn:E.
    + apply Nat.eqb_eq in E. tauto.
    + rewrite IH; [reflexivity|tauto].
Qed.

Lemma remove_absent (l : list ref) p :
  ~ In p l -> PyList.remove Nat.eqb l p = None.
Proof.
  induction l as [|x l IH]; simpl; intros H; [reflexivity|].
  destruct (Nat.eqb x p) eqn:E.
  - apply Nat.eqb_eq in E. tauto.
  - rewrite IH; [reflexivity|tauto].
Qed.

Lemma points_remove_first pre p post w :
  points (self w) = pre ++ p :: post ->
  ~ In p pre ->
  points_remove p w = (Ok tt, mkWorld (heap w) (set_points (pre ++ post) (self w))).
Proof.
  intros E H. unfold points_remove, bind, get_self. simpl.
  rewrite E, remove_first_occurrence by assumption. reflexivity.
Qed.

(** C7.  [delete_point_by_coordinates] walks a copy of the sequence in
    order and takes out the first point whose easting and northing lie
    within [float_precision] of the arguments and whose altitude does too or
    whose [has_z] is false, and only that one, before the line is
    renormalized and the call returns; when no point passes the test it
    raises [ValueError] and the state is the one before the call. *)
Theorem delete_by_coordinates_first_match fp e n a (w : world) :
  (forall pre p post,
     points (self w) = pre ++ p :: post ->
     (forall r, In r pre -> matches_at fp e n a (heap w) r = false) ->
     matches_at fp e n a (heap w) p = true ->
     delete_point_by_coordinates fp e n a w
     = renormalize (mkWorld (heap w) (set_points (pre ++ post) (self w))))
  /\
  ((forall r, In r (points (self w)) -> matches_at fp e n a (heap w) r = false) ->
   delete_point_by_coordinates fp e n a w = (Raise ValueError, w)).
Proof.
  split.
  - intros pre p post E Hpre Hp.
    unfold delete_point_by_coordinates, bind at 1, get_self.
    rewrite E, scan_points_skip by assumption. simpl.
    unfold bind at 1. rewrite coordinates_match_spec, Hp.
    assert (Hnot : ~ In p pre).
    { intros Hin. apply Hpre in Hin. congruence. }
    unfold bind at 1. rewrite (@points_remove_first pre p post w E Hnot). reflexivity.
  - intros H.
    unfold delete_point_by_coordinates, bind at 1, get_self.
    rewrite <- (app_nil_r (points (self w))).
    rewrite scan_points_skip by assumption. reflexivity.
Qed.

Lemma delete_by_coordinates_first_match_witness :
  delete_point_by_coordinates 0.5 1 1 0
    (mkWorld sample_heap (mkLine 7 false None None [0; 1; 2]))
  = renormalize (mkWorld sample_heap (mkLine 7 false None None [0; 2]))
  /\
  delete_point_by_coordinates 0.5 9 9 0
    (mkWorld sample_heap (mkLine 7 false None None [0; 1; 2]))
  = (Raise ValueError, mkWorld sample_heap (mkLine 7 false None None [0; 1; 2])).
Proof.
  pose proof (delete_by_coordinates_first_match 0.5 1 1 0
    (mkWorld sample_heap (mkLine 7 false None None [0; 1; 2]))) as [Hfound _].
  pose proof (delete_by_coordinates_first_match 0.5 9 9 0
    (mkWorld sample_heap (mkLine 7 false None None [0; 1; 2]))) as [_ Hnone].
  split.
  - apply (Hfound [0] 1 [2]).
    + reflexivity.
    + intros r [<-|[]]. reflexivity.
    + reflexivity.
  - apply Hnone. intros r [<-|[<-|[<-|[]]]]; reflexivity.
Defined.

(** ** Comparing coordinates *)

(** The binary64 values that [==] identifies: the two zeros, an infinity
    with itself, a finite number with itself, and never a NaN. *)
Lemma SFcompare_finite_Eq s1 m1 e1 s2 m2 e2 :
  SFcompare (S754_finite s1 m1 e1) (S754_finite s2 m2 e2) = Some Eq ->
  s1 = s2 /\ m1 = m2 /\ e1 = e2.
Proof.
  simpl. destruct s1, s2; try discriminate;
    destruct (Z.compare_spec e1 e2) as [He|He|He]; try discriminate; intros H;
    injection H as H.
  - apply (f_equal CompOpp) in H. rewrite CompOpp_involutive in H. simpl in H.
    apply Pos.compare_eq in H. auto.
  - apply Pos.compare_eq in H. auto.
Qed.

Lemma SFcompare_finite_refl s m e :
  SFcompare (S754_finite s m e) (S754_finite s m e) = Some Eq.
Proof.
  simpl. rewrite Z.compare_refl, Pos.compare_cont_refl. destruct s; reflexivity.
Qed.

Lemma SFeqb_SFsame f1 f2 : SFeqb f1 f2 = true <-> SFsame f1 f2.
Proof.
  unfold SFeqb. split.
  - destruct (SFcompare f1 f2) as [[| |]|] eqn:E; try discriminate. intros _.
    destruct f1 as [?|[|]| |s1 m1 e1], f2 as [?|[|]| |s2 m2 e2]; simpl; auto;
      try (simpl in E; discriminate);
      try (simpl in E; destruct s1; discriminate);
      try (simpl in E; destruct s2; discriminate).
    now apply SFcompare_finite_Eq.
  - destruct f1 as [?|[|]| |s1 m1 e1], f2 as [?|[|]| |s2 m2 e2]; cbn [SFsame];
      try tauto; try discriminate; try reflexivity.
    intros (-> & -> & ->). now rewrite SFcompare_finite_refl.
Qed.

Lemma SFsame_sym f1 f2 : SFsame f1 f2 -> SFsame f2 f1.
Proof.
  destruct f1, f2; simpl; try tauto; try congruence. intros (-> & -> & ->); auto.
Qed.

Lemma SFsame_trans f1 f2 f3 : SFsame f1 f2 -> SFsame f2 f3 -> SFsame f1 f3.
Proof.
  destruct f1, f2, f3; simpl; try tauto; try congruence.
  intros (-> & -> & ->) (-> & -> & ->); auto.
Qed.

Lemma float_eqb_sym (x y : float) : (x =? y)%float = true -> (y =? x)%float = true.
Proof. rewrite !eqb_spec, !SFeqb_SFsame. apply SFsame_sym. Qed.

Lemma float_eqb_trans (x y z : float) :
  (x =? y)%float = true -> (y =? z)%float = true -> (x =? z)%float = true.
Proof. rewrite !eqb_spec, !SFeqb_SFsame. apply SFsame_trans. Qed.

Lemma same_place_sym h a b : same_place h a b = true -> same_place h b a = true.
Proof.
  unfold same_place, coord_of, coord_eqb. rewrite !andb_true_iff.
  intros [[H1 H2] H3]. repeat split; now apply float_eqb_sym.
Qed.

Lemma same_place_trans h a b c :
  same_place h a b = true -> same_place h b c = true -> same_place h a c = true.
Proof.
  unfold same_place, coord_of, coord_eqb. rewrite !andb_true_iff.
  intros [[H1 H2] H3] [[H4 H5] H6].
  repeat split; eapply float_eqb_trans; eassumption.
Qed.

Lemma same_place_refl_l h a b : same_place h a b = true -> same_place h a a = true.
Proof. eauto using same_place_sym, same_place_trans. Qed.

Lemma same_place_refl_r h a b : same_place h a b = true -> same_place h b b = true.
Proof. eauto using same_place_sym, same_place_trans. Qed.

Lemma coord_spec r w : coord r w = (Ok (coord_of (heap w) r), w).
Proof. reflexivity. Qed.

(** ** First and last element of a Python list *)

Lemma getitem_nil {A} (i : Z) : PyList.getitem (@nil A) i = None.
Proof.
  unfold PyList.getitem, PyList.norm_index. simpl.
  destruct (i <? 0)%Z eqn:E.
  - rewrite Z.add_0_r. apply Z.ltb_lt in E.
    destruct (0 <=? i)%Z eqn:E'; [apply Z.leb_le in E'; lia|reflexivity].
  - destruct (0 <=? i)%Z; simpl; [|reflexivity].
    destruct (i <? 0)%Z; [discriminate|reflexivity].
Qed.

Lemma getitem_first {A} (x : A) t : PyList.getitem (x :: t) 0 = Some x.
Proof.
  unfold PyList.getitem, PyList.norm_index.
  change (0 <? 0)%Z with false. cbv iota.
  assert (H : (0 <? Z.of_nat (length (x :: t)))%Z = true).
  { apply Z.ltb_lt. simpl length. lia. }
  rewrite H. reflexivity.
Qed.

Lemma norm_index_last {A} (l : list A) z :
  PyList.norm_index (l ++ [z]) (-1) = Some (length l).
Proof.
  unfold PyList.norm_index. rewrite length_app. simpl length.
  change (-1 <? 0)%Z with true. cbv iota.
  replace (-1 + Z.of_nat (length l + 1))%Z with (Z.of_nat (length l)) by lia.
  assert (H1 : (0 <=? Z.of_nat (length l))%Z = true) by (apply Z.leb_le; lia).
  assert (H2 : (Z.of_nat (length l) <? Z.of_nat (length l + 1))%Z = true)
    by (apply Z.ltb_lt; lia).
  rewrite H1, H2. simpl. now rewrite Nat2Z.id.
Qed.

Lemma getitem_last {A} (l : list A) z : PyList.getitem (l ++ [z]) (-1) = Some z.
Proof.
  unfold PyList.getitem. rewrite norm_index_last.
  rewrite nth_error_app2 by lia. now rewrite Nat.sub_diag.
Qed.

Lemma delitem_last {A} (l : list A) z : PyList.delitem (l ++ [z]) (-1) = Some l.
Proof.
  unfold PyList.delitem. rewrite norm_index_last.
  rewrite firstn_app, firstn_all, Nat.sub_diag. simpl firstn.
  rewrite skipn_all2 by (rewrite length_app; simpl; lia).
  now rewrite !app_nil_r.
Qed.

Lemma snoc_view {A} (x : A) t : x :: t = removelast (x :: t) ++ [last t x].
Proof.
  rewrite (app_removelast_last x) at 1 by discriminate.
  f_equal. f_equal. destruct t; [reflexivity|].
  simpl. reflexivity.
Qed.

Lemma world_eta w l :
  points (self w) = l -> mkWorld (heap w) (set_points l (self w)) = w.
Proof. destruct w as [h [i c o oi p]]. simpl. now intros <-. Qed.

(** ** The closure fold *)

Lemma fold_closure_empty w :
  points (self w) = [] -> fold_closure w = (Raise IndexError, w).
Proof.
  intros E. unfold fold_closure, bind at 1, points_getitem, bind at 1, get_self.
  now rewrite E, getitem_nil.
Qed.

Lemma getitem_last_cons {A} (x : A) t :
  PyList.getitem (x :: t) (-1) = Some (last t x).
Proof. rewrite (snoc_view x t) at 1. apply getitem_last. Qed.

Lemma delitem_last_cons {A} (x : A) t :
  PyList.delitem (x :: t) (-1) = Some (removelast (x :: t)).
Proof. rewrite (snoc_view x t) at 1. apply delitem_last. Qed.

Lemma points_getitem_first w x t :
  points (self w) = x :: t -> points_getitem 0 w = (Ok x, w).
Proof.
  intros E. unfold points_getitem, bind, get_self.
  now rewrite E, getitem_first.
Qed.

Lemma points_getitem_last w x t :
  points (self w) = x :: t -> points_getitem (-1) w = (Ok (last t x), w).
Proof.
  intros E. unfold points_getitem, bind, get_self.
  now rewrite E, getitem_last_cons.
Qed.

Lemma points_delitem_last w x t :
  points (self w) = x :: t ->
  points_delitem (-1) w
  = (Ok tt, mkWorld (heap w) (set_points (removelast (x :: t)) (self w))).
Proof.
  intros E. unfold points_delitem, bind, get_self.
  now rewrite E, delitem_last_cons.
Qed.

Lemma fold_closure_nonempty w x t :
  points (self w) = x :: t ->
  fold_closure w =
    if same_place (heap w) x (last t x)
    then (Ok tt, mkWorld (heap w)
                   (set_closed true (set_points (removelast (x :: t)) (self w))))
    else (Ok tt, w).
Proof.
  intros E. unfold fold_closure.
  rewrite (bind_ok _ _ _ _ _ (points_getitem_first w x t E)).
  rewrite (bind_ok _ _ _ _ _ (points_getitem_last w x t E)).
  rewrite (bind_ok _ _ _ _ _ (coord_spec x w)).
  rewrite (bind_ok _ _ _ _ _ (coord_spec (last t x) w)).
  fold (same_place (heap w) x (last t x)).
  destruct (same_place (heap w) x (last t x)); [|reflexivity].
  rewrite (bind_ok _ _ _ _ _ (points_delitem_last w x t E)). reflexivity.
Qed.

(** ** Renumbering *)

Lemma reorder_from_spec l : forall i h L,
  reorder_from i l (mkWorld h L) = (Ok tt, mkWorld (renumber h i l) L).
Proof.
  induction l as [|r t IH]; intros i h L; [reflexivity|].
  simpl. unfold bind, modify_point. simpl. apply IH.
Qed.

Lemma points_reorder_spec w :
  points_reorder w = (Ok tt, mkWorld (renumber (heap w) 0 (points (self w))) (self w)).
Proof.
  destruct w as [h L]. unfold points_reorder, bind, get_self. simpl.
  apply reorder_from_spec.
Qed.

(** ** The adjacent-duplicate pass *)

(** The loop from index [length pre] on, when the copy is
    [pre ++ a :: rest], the points kept so far are [done] and no point of
    [rest] is among them. *)
Lemma remove_adjacent_loop rest : forall tmp pre a done w,
  tmp = pre ++ a :: rest ->
  points (self w) = done ++ rest ->
  NoDup rest ->
  (forall r, In r rest -> ~ In r done) ->
  for_each (seq (length pre) (length rest)) (compare_adjacent tmp) w
  = (Ok tt, mkWorld (heap w) (set_points (done ++ pass_after (heap w) a rest) (self w))).
Proof.
  induction rest as [|b rest IH]; intros tmp pre a done w Etmp E Hnd Hfresh.
  - simpl. rewrite app_nil_r in *. now rewrite world_eta.
  - simpl seq. simpl for_each.
    assert (Ha : nth_error tmp (length pre) = Some a).
    { subst tmp. rewrite nth_error_app2 by lia. now rewrite Nat.sub_diag. }
    assert (Hb : nth_error tmp (length pre + 1) = Some b).
    { subst tmp. rewrite nth_error_app2 by lia.
      replace (length pre + 1 - length pre) with 1 by lia. reflexivity. }
    unfold bind at 1. unfold compare_adjacent at 1.
    unfold bind at 1. rewrite Ha. simpl lift. unfold ret at 1.
    unfold bind at 1. rewrite Hb. simpl lift. unfold ret at 1.
    unfold bind at 1. rewrite coord_spec. unfold bind at 1. rewrite coord_spec.
    fold (same_place (heap w) a b).
    assert (Hsplit : tmp = (pre ++ [a]) ++ b :: rest)
      by (subst tmp; now rewrite <- app_assoc).
    assert (Hlen : S (length pre) = length (pre ++ [a]))
      by (rewrite length_app; simpl; lia).
    inversion Hnd as [|b' rest' Hb_rest Hnd']; subst b' rest'.
    simpl pass_after. destruct (same_place (heap w) a b).
    + assert (Hrm : points_remove b w
                    = (Ok tt, mkWorld (heap w) (set_points (done ++ rest) (self w)))).
      { apply points_remove_first; [assumption|]. apply Hfresh. now left. }
      rewrite Hrm, Hlen.
      rewrite (IH tmp (pre ++ [a]) b done); simpl; try assumption; try reflexivity.
      intros r Hr. apply Hfresh. now right.
    + unfold ret at 1. rewrite Hlen.
      rewrite (IH tmp (pre ++ [a]) b (done ++ [b])); try assumption.
      * now rewrite <- app_assoc.
      * now rewrite <- app_assoc.
      * intros r Hr Hin. apply in_app_or in Hin as [Hin|[<-|[]]].
        -- apply (Hfresh r); [now right|assumption].
        -- contradiction.
Qed.

Lemma remove_adjacent_spec w :
  NoDup (points (self w)) ->
  remove_adjacent (points (self w)) w
  = (Ok tt, mkWorld (heap w)
              (set_points (single_pass (heap w) (points (self w))) (self w))).
Proof.
  intros Hnd. unfold remove_adjacent, range_pred.
  destruct (points (self w)) as [|a rest] eqn:E.
  - simpl. now rewrite world_eta.
  - replace (length (a :: rest) - 1) with (length rest) by (simpl; lia).
    inversion Hnd as [|a' rest' Ha Hnd']; subst.
    apply (remove_adjacent_loop rest (a :: rest) [] a [a] w); simpl; try assumption;
      try reflexivity.
    intros r Hr [<-|[]]. contradiction.
Qed.

Lemma last_cons_cons {A} (x y : A) l d : last (x :: y :: l) d = last (y :: l) d.
Proof. reflexivity. Qed.

Lemma last_cons_default {A} (l : list A) : forall x d, last (x :: l) d = last l x.
Proof.
  induction l as [|y l IH]; intros x d; [reflexivity|].
  rewrite last_cons_cons. now rewrite (IH y d), (IH y x).
Qed.

Lemma pass_after_app h l1 : forall prev l2,
  pass_after h prev (l1 ++ l2)
  = pass_after h prev l1 ++ pass_after h (last l1 prev) l2.
Proof.
  induction l1 as [|b t IH]; intros prev l2; [reflexivity|].
  rewrite last_cons_default. simpl. rewrite IH.
  now destruct (same_place h prev b).
Qed.




(** ** The whole of [__remove_doubled_points] *)

Lemma single_pass_nil_inv h l : single_pass h l = [] -> l = [].
Proof. destruct l; [reflexivity|discriminate]. Qed.

(** On a sequence without a repeated object: the single pass, then the
    fold of the last point onto the first, then the renumbering. *)
Lemma remove_doubled_points_spec w :
  NoDup (points (self w)) ->
  remove_doubled_points w =
    match single_pass (heap w) (points (self w)) with
    | [] => (Raise IndexError, w)
    | x :: t =>
        if same_place (heap w) x (last t x)
        then (Ok tt,
              mkWorld (renumber (heap w) 0 (removelast (x :: t)))
                (set_closed true (set_points (removelast (x :: t)) (self w))))
        else (Ok tt,
              mkWorld (renumber (heap w) 0 (x :: t)) (set_points (x :: t) (self w)))
    end.
Proof.
  intros Hnd. unfold remove_doubled_points.
  unfold bind at 1, get_self.
  rewrite (bind_ok _ _ _ _ _ (remove_adjacent_spec w Hnd)).
  destruct (single_pass (heap w) (points (self w))) as [|x t] eqn:Es.
  - apply single_pass_nil_inv in Es. rewrite (world_eta w [] Es).
    now rewrite (bind_raise _ _ _ _ _ (fold_closure_empty w Es)).
  - set (w1 := mkWorld (heap w) (set_points (x :: t) (self w))).
    pose proof (fold_closure_nonempty w1 x t eq_refl) as Hfold.
    simpl heap in Hfold.
    destruct (same_place (heap w) x (last t x)).
    + rewrite (bind_ok _ _ _ _ _ Hfold). now rewrite points_reorder_spec.
    + rewrite (bind_ok _ _ _ _ _ Hfold). now rewrite points_reorder_spec.
Qed.

Lemma remove_doubled_points_empty w :
  points (self w) = [] -> remove_doubled_points w = (Raise IndexError, w).
Proof.
  intros E. rewrite remove_doubled_points_spec by (rewrite E; constructor).
  now rewrite E.
Qed.

Lemma check_line_no_points w : points (self w) = [] -> check_line w = (Ok tt, w).
Proof.
  intros E. unfold check_line, bind at 1, get_self. rewrite E. reflexivity.
Qed.

(** The state [__init__] has reached when it calls
    [__remove_doubled_points]: flag and horizon set, points assigned. *)
Lemma Line_init_spec h c o pts :
  existsb (fun p => negb (is_GeoPoint p)) pts = false ->
  new_Line h c (horizon_obj o) pts
  = renormalize
      (mkWorld h (mkLine 0 c o (match o with Some _ => None | None => Some (-1)%Z end)
                    (refs_of pts))).
Proof.
  intros Hpts. unfold new_Line, Line_init.
  rewrite (bind_ok _ _ _ _ _ (check_points_ok ValueError pts _ Hpts)).
  destruct o; reflexivity.
Qed.

Lemma NoDup_single (a : ref) : NoDup [a].
Proof. constructor; [simpl; tauto|constructor]. Qed.

Lemma NoDup_pair (a b : ref) : a <> b -> NoDup [a; b].
Proof.
  intros H. constructor; [|apply NoDup_single].
  simpl. intros [E|[]]. now apply H.
Qed.

(** ** Lines of one point *)

(** The constructor on a list of one point that equals itself. *)
Lemma new_Line_of_one_point h (c : bool) o r :
  same_place h r r = true ->
  new_Line h c (horizon_obj o) [PyGeoPoint r]
  = (Ok tt,
     mkWorld h (mkLine 0 true o (match o with Some _ => None | None => Some (-1)%Z end) [])).
Proof.
  intros Hrr. rewrite Line_init_spec by reflexivity. unfold renormalize.
  simpl refs_of.
  set (w := mkWorld h (mkLine 0 c o _ [r])).
  assert (Hrdp : remove_doubled_points w
           = (Ok tt, mkWorld h (mkLine 0 true o (l_horizon_id (self w)) []))).
  { rewrite remove_doubled_points_spec by apply NoDup_single.
    simpl. now rewrite Hrr. }
  rewrite (bind_ok _ _ _ _ _ Hrdp).
  now rewrite check_line_no_points.
Qed.

(** C1.  What the constructor does with a list of one point: the test of
    first against last compares the point with itself, so the point is
    deleted and [closed] is set; the line is left with no point at all,
    where the specification wants the lone point kept and the flag as
    given. *)
Theorem singleton_line_is_emptied h (c : bool) o r :
  same_place h r r = true ->
  fst (new_Line h c (horizon_obj o) [PyGeoPoint r]) = Ok tt
  /\ points (self (snd (new_Line h c (horizon_obj o) [PyGeoPoint r]))) = []
  /\ closed (self (snd (new_Line h c (horizon_obj o) [PyGeoPoint r]))) = true.
Proof.
  intros Hrr. rewrite (new_Line_of_one_point h c o r Hrr). now repeat split.
Qed.

Lemma singleton_line_is_emptied_witness :
  fst (new_Line sample_heap false PyNone [PyGeoPoint 5]) = Ok tt
  /\ points (self (snd (new_Line sample_heap false PyNone [PyGeoPoint 5]))) = []
  /\ closed (self (snd (new_Line sample_heap false PyNone [PyGeoPoint 5]))) = true.
Proof.
  apply (singleton_line_is_emptied sample_heap false None 5). reflexivity.
Defined.

(** ** Inserting beyond the end *)

Lemma clip_minus_one {A} (kept : list A) z :
  PyList.clip (kept ++ [z]) (-1) = length kept.
Proof.
  unfold PyList.clip. rewrite length_app. simpl length.
  change (-1 <? 0)%Z with true. cbv iota. lia.
Qed.

Lemma setslice_before_last {A} (kept : list A) z xs :
  PyList.setslice (kept ++ [z]) (-1) (-1) xs = kept ++ xs ++ [z].
Proof.
  unfold PyList.setslice. rewrite clip_minus_one, Nat.max_id.
  rewrite firstn_app, firstn_all, Nat.sub_diag. simpl firstn. rewrite app_nil_r.
  rewrite skipn_app, skipn_all, Nat.sub_diag. reflexivity.
Qed.

(** C2.  What [insert_points] does with a position at or beyond the
    length of a line that has points: the slice [[-1:-1]] lies before the
    last point, so the new points go between the rest of the line and its
    last point, and are not appended after it. *)
Theorem insert_points_beyond_end_goes_before_last (w : world) pts position kept z :
  existsb (fun p => negb (is_GeoPoint p)) pts = false ->
  points (self w) = kept ++ [z] ->
  (Z.of_nat (length (points (self w))) <= position)%Z ->
  insert_points pts position w
  = renormalize (mkWorld (heap w) (set_points (kept ++ refs_of pts ++ [z]) (self w))).
Proof.
  intros Hpts E Hpos. unfold insert_points.
  rewrite (bind_ok _ _ _ _ _ (check_points_ok TypeError pts w Hpts)).
  unfold bind at 1, get_self.
  apply Z.leb_le in Hpos. rewrite Hpos.
  rewrite E, setslice_before_last. reflexivity.
Qed.

Lemma insert_points_beyond_end_goes_before_last_witness :
  insert_points [PyGeoPoint 2; PyGeoPoint 3] 100
    (mkWorld sample_heap (mkLine 7 false None None [0; 1]))
  = renormalize (mkWorld sample_heap (mkLine 7 false None None [0; 2; 3; 1])).
Proof.
  apply (insert_points_beyond_end_goes_before_last
           (mkWorld sample_heap (mkLine 7 false None None [0; 1]))
           [PyGeoPoint 2; PyGeoPoint 3] 100 [0] 1).
  - reflexivity.
  - reflexivity.
  - simpl. lia.
Defined.

(** Scenario D run to its end: the two points end up before (1,1). *)
Example scenario_D_sequence :
  let w := snd (insert_points [PyGeoPoint 2; PyGeoPoint 3] 100
                  (snd (new_Line sample_heap false PyNone [PyGeoPoint 0; PyGeoPoint 1]))) in
  points (self w) = [0; 2; 3; 1] /\ ordinals w = [0; 1; 2; 3]%Z.
Proof. split; reflexivity. Qed.

(** ** Points without z value *)



(** The same through the constructor: all three points stay. *)
Example points_without_z_are_kept_apart :
  points (self (snd (new_Line sample_heap false PyNone
                       [PyGeoPoint 6; PyGeoPoint 7; PyGeoPoint 1])))
  = [6; 7; 1].
Proof. reflexivity. Qed.

(** ** Lines without points *)

Lemma setslice_nil {A} (i j : Z) : PyList.setslice (@nil A) i j [] = [].
Proof. unfold PyList.setslice. now rewrite !firstn_nil, !skipn_nil. Qed.

Lemma insert_points_nothing w position :
  points (self w) = [] -> insert_points [] position w = renormalize w.
Proof.
  intros E. unfold insert_points. simpl for_each.
  unfold bind at 1, ret at 1. unfold bind at 1, get_self.
  rewrite E. simpl refs_of.
  destruct (Z.of_nat (length (@nil ref)) <=? position)%Z;
    unfold bind at 1, modify_self; rewrite setslice_nil, (world_eta w [] E);
    reflexivity.
Qed.

(** C4, as the code has it.  [__remove_doubled_points] reads the first and
    the last point whatever the sequence holds, so on a sequence without
    points it raises [IndexError]: the constructor fails so on an empty
    list; two points on one place leave a line with no point and [closed]
    set; and on such a line a further call fails in the same way when the
    sequence is still empty as it renormalizes, as [insert_points] with no
    points does. *)
Theorem normalization_needs_a_point :
  (forall w, points (self w) = [] -> remove_doubled_points w = (Raise IndexError, w))
  /\ (forall h (c : bool) o, fst (new_Line h c (horizon_obj o) []) = Raise IndexError)
  /\ (forall h (c : bool) o a b,
        a <> b -> same_place h a b = true ->
        exists h',
          new_Line h c (horizon_obj o) [PyGeoPoint a; PyGeoPoint b]
          = (Ok tt,
             mkWorld h' (mkLine 0 true o
                           (match o with Some _ => None | None => Some (-1)%Z end) [])))
  /\ (forall w position,
        points (self w) = [] ->
        insert_points [] position w = (Raise IndexError, w)).
Proof.
  split; [exact remove_doubled_points_empty|].
  split; [|split].
  - intros h c o. rewrite Line_init_spec by reflexivity. unfold renormalize.
    simpl refs_of.
    set (w := mkWorld h (mkLine 0 c o _ [])).
    now rewrite (bind_raise _ _ _ _ _ (remove_doubled_points_empty w eq_refl)).
  - intros h c o a b Hab Hsame. rewrite Line_init_spec by reflexivity.
    unfold renormalize. simpl refs_of.
    set (w := mkWorld h (mkLine 0 c o _ [a; b])).
    assert (Hrdp : remove_doubled_points w
             = (Ok tt, mkWorld h (mkLine 0 true o (l_horizon_id (self w)) []))).
    { rewrite remove_doubled_points_spec by now apply NoDup_pair.
      simpl. rewrite Hsame. simpl.
      now rewrite (same_place_refl_l _ _ _ Hsame). }
    rewrite (bind_ok _ _ _ _ _ Hrdp). exists h.
    now rewrite check_line_no_points.
  - intros w position E. rewrite insert_points_nothing by assumption.
    unfold renormalize.
    now rewrite (bind_raise _ _ _ _ _ (remove_doubled_points_empty w E)).
Qed.

Lemma normalization_needs_a_point_witness :
  (exists h',
     new_Line sample_heap false PyNone [PyGeoPoint 0; PyGeoPoint 4]
     = (Ok tt, mkWorld h' (mkLine 0 true None (Some (-1)%Z) [])))
  /\ insert_points [] 0 (mkWorld sample_heap (mkLine 0 true None (Some (-1)%Z) []))
     = (Raise IndexError, mkWorld sample_heap (mkLine 0 true None (Some (-1)%Z) [])).
Proof.
  destruct normalization_needs_a_point as (_ & _ & Htwo & Hagain). split.
  - apply (Htwo sample_heap false None 0 4); [discriminate|reflexivity].
  - apply Hagain. reflexivity.
Defined.

(** On the line two points on one place leave behind, [insert_point]
    returns normally: its renormalization meets a sequence of one point. *)
Lemma insert_point_on_emptied_line_returns :
  let w := snd (new_Line sample_heap false PyNone [PyGeoPoint 0; PyGeoPoint 4]) in
  points (self w) = [] /\ closed (self w) = true
  /\ fst (insert_point (PyGeoPoint 1) 0 w) = Ok tt.
Proof. repeat split. Qed.

(** ** Lines in an extent *)

Lemma insert_by_id_perm x l : Permutation (x :: l) (insert_by_id x l).
Proof.
  induction l as [|y t IH]; simpl; [reflexivity|].
  destruct (l_id x <=? l_id y)%Z; [reflexivity|].
  rewrite perm_swap. now constructor.
Qed.

Lemma order_by_id_perm l : Permutation l (order_by_id l).
Proof.
  induction l as [|x t IH]; simpl; [constructor|].
  rewrite <- insert_by_id_perm. now constructor.
Qed.

Lemma insert_by_id_HdRel a x l :
  by_id a x -> HdRel by_id a l -> HdRel by_id a (insert_by_id x l).
Proof.
  intros Hax Hl. destruct l as [|y t]; simpl; [now constructor|].
  destruct (l_id x <=? l_id y)%Z; constructor; [assumption|].
  now inversion Hl.
Qed.

Lemma insert_by_id_sorted x l : Sorted by_id l -> Sorted by_id (insert_by_id x l).
Proof.
  induction 1 as [|y t Ht IH Hy]; simpl.
  - repeat constructor.
  - destruct (l_id x <=? l_id y)%Z eqn:E.
    + apply Z.leb_le in E. constructor; [now constructor|]. now constructor.
    + apply Z.leb_gt in E. constructor; [assumption|].
      apply insert_by_id_HdRel; [unfold by_id; lia|assumption].
Qed.

Lemma order_by_id_sorted l : Sorted by_id (order_by_id l).
Proof.
  induction l as [|x t IH]; simpl; [constructor|]. now apply insert_by_id_sorted.
Qed.

Lemma existsb_Zeqb i ids : existsb (Z.eqb i) ids = true <-> In i ids.
Proof.
  rewrite existsb_exists. split.
  - intros (j & Hj & E). apply Z.eqb_eq in E. now subst.
  - intros H. exists i. split; [assumption|apply Z.eqb_refl].
Qed.

Lemma select_line_ids_In db minE maxE minN maxN i :
  In i (select_line_ids db minE maxE minN maxN) <->
  exists p, In p (geopoints db) /\ attached_in_extent i minE maxE minN maxN p.
Proof.
  unfold select_line_ids, attached_in_extent, between. rewrite in_map_iff. split.
  - intros (p & <- & Hp). exists p.
    rewrite !filter_In, !andb_true_iff, negb_true_iff, Z.eqb_neq in Hp. tauto.
  - intros (p & Hp & Hid & Hatt & H1 & H2 & H3 & H4). exists p.
    rewrite !filter_In, !andb_true_iff, negb_true_iff, Z.eqb_neq. tauto.
Qed.

Lemma line_in_extent_true db minE maxE minN maxN l :
  line_in_extent db minE maxE minN maxN l = true <->
  exists p, In p (geopoints db) /\ attached_in_extent (l_id l) minE maxE minN maxN p.
Proof.
  unfold line_in_extent, attached_in_extent, between. rewrite existsb_exists.
  split; intros (p & Hp & H); exists p; (split; [assumption|]);
    rewrite ?andb_true_iff, ?negb_true_iff, ?Z.eqb_eq, ?Z.eqb_neq in *; tauto.
Qed.

Lemma in_set_is_in_extent db minE maxE minN maxN l :
  existsb (Z.eqb (l_id l)) (py_set (select_line_ids db minE maxE minN maxN))
  = line_in_extent db minE maxE minN maxN l.
Proof.
  apply eq_true_iff_eq.
  rewrite existsb_Zeqb, line_in_extent_true. unfold py_set.
  rewrite nodup_In. apply select_line_ids_In.
Qed.

Lemma nothing_in_extent db minE maxE minN maxN :
  py_set (select_line_ids db minE maxE minN maxN) = [] ->
  filter (line_in_extent db minE maxE minN maxN) (lines db) = [].
Proof.
  intros E. rewrite <- (filter_ext _ _ (in_set_is_in_extent db minE maxE minN maxN)).
  rewrite E. simpl. induction (lines db); [reflexivity|assumption].
Qed.

(** C10.  The lines-in-extent query returns exactly the lines of the table
    to which a point inside the closed rectangle is attached, by ascending
    identifier; it first collects the line identifiers of such points as a
    set, each identifier once, and when there are none it returns the empty
    list after that one statement; otherwise the second statement is sent
    with that set. *)
Theorem load_in_extent_returns_lines_in_extent db minE maxE minN maxN :
  exists result log ids,
    load_in_extent_from_db (Some db) minE maxE minN maxN = (Ok result, log)
    /\ Permutation result (filter (line_in_extent db minE maxE minN maxN) (lines db))
    /\ (forall l,
          In l result <->
          In l (lines db) /\
          exists p, In p (geopoints db) /\ attached_in_extent (l_id l) minE maxE minN maxN p)
    /\ Sorted by_id result
    /\ NoDup ids
    /\ (forall i,
          In i ids <->
          exists p, In p (geopoints db) /\ attached_in_extent i minE maxE minN maxN p)
    /\ (ids = [] -> result = [] /\ log = [SelectLineIds minE maxE minN maxN])
    /\ (ids <> [] -> log = [SelectLineIds minE maxE minN maxN; SelectLines ids]).
Proof.
  assert (Hin : forall result,
            Permutation result (filter (line_in_extent db minE maxE minN maxN) (lines db)) ->
            forall l,
              In l result <->
              In l (lines db) /\
              exists p, In p (geopoints db)
                        /\ attached_in_extent (l_id l) minE maxE minN maxN p).
  { intros result Hperm l. rewrite <- line_in_extent_true, <- filter_In.
    split; apply Permutation_in; [assumption|now symmetry]. }
  assert (Hnd : NoDup (py_set (select_line_ids db minE maxE minN maxN)))
    by apply NoDup_nodup.
  assert (Hids : forall i,
            In i (py_set (select_line_ids db minE maxE minN maxN)) <->
            exists p, In p (geopoints db) /\ attached_in_extent i minE maxE minN maxN p).
  { intros i. unfold py_set. rewrite nodup_In. apply select_line_ids_In. }
  unfold load_in_extent_from_db.
  destruct (py_set (select_line_ids db minE maxE minN maxN)) as [|i ids] eqn:E.
  - exists [], [SelectLineIds minE maxE minN maxN], []. simpl.
    assert (Hperm : Permutation []
              (filter (line_in_extent db minE maxE minN maxN) (lines db))).
    { now rewrite nothing_in_extent. }
    split; [reflexivity|]. split; [assumption|]. split; [exact (Hin _ Hperm)|].
    split; [constructor|]. split; [assumption|]. split; [exact Hids|].
    split; [now split|]. intros Hne. now contradiction Hne.
  - exists (select_lines db (i :: ids)),
           [SelectLineIds minE maxE minN maxN; SelectLines (i :: ids)],
           (i :: ids).
    simpl length. simpl Nat.eqb. cbv iota.
    assert (Hperm : Permutation (select_lines db (i :: ids))
              (filter (line_in_extent db minE maxE minN maxN) (lines db))).
    { unfold select_lines. rewrite <- order_by_id_perm, <- E.
      now rewrite (filter_ext _ _ (in_set_is_in_extent db minE maxE minN maxN)). }
    split; [reflexivity|]. split; [assumption|]. split; [exact (Hin _ Hperm)|].
    split; [apply order_by_id_sorted|]. split; [assumption|]. split; [exact Hids|].
    split; [discriminate|reflexivity].
Qed.

Lemma load_in_extent_returns_lines_in_extent_witness :
  load_in_extent_from_db (Some sample_db) 9 10 9 10
  = (Ok [], [SelectLineIds 9 10 9 10])
  /\ exists ids,
       load_in_extent_from_db (Some sample_db) 0 6 0 6
       = (Ok [mkLine 3 false None None []; mkLine 8 false None None []],
          [SelectLineIds 0 6 0 6; SelectLines ids])
       /\ NoDup ids /\ In 8%Z ids /\ In 3%Z ids.
Proof.
  split.
  - destruct (load_in_extent_returns_lines_in_extent sample_db 9 10 9 10)
      as (result & log & ids & -> & _ & _ & _ & _ & Hids & Hnone & _).
    assert (E : ids = []).
    { destruct ids as [|i ids]; [reflexivity|].
      destruct (proj1 (Hids i) (or_introl eq_refl)) as (p & Hp & _ & _ & H1 & _).
      simpl in Hp. destruct Hp as [<-|[<-|[<-|[<-|[]]]]]; discriminate. }
    destruct (Hnone E) as [-> ->]. reflexivity.
  - destruct (load_in_extent_returns_lines_in_extent sample_db 0 6 0 6)
      as (result & log & ids & E & _ & _ & _ & Hnd & Hids & _ & Hsome).
    assert (H8 : In 8%Z ids).
    { apply Hids. exists (mkGeoPoint 1 0 0 0 false None None 8 0).
      split; [now left|]. repeat split. discriminate. }
    assert (H3 : In 3%Z ids).
    { apply Hids. exists (mkGeoPoint 3 5 5 0 false None None 3 0).
      split; [simpl; tauto|]. repeat split. discriminate. }
    exists ids. split; [|auto].
    rewrite E. f_equal.
    + vm_compute in E. now injection E as <- _.
    + apply Hsome. intros ->. contradiction.
Defined.

(** An extent that holds points of both lines: the lines come by [id]. *)
Example lines_come_by_id :
  fst (load_in_extent_from_db (Some sample_db) 0 6 0 6)
  = Ok [mkLine 3 false None None []; mkLine 8 false None None []].
Proof. reflexivity. Qed.

(** ** Renumbering, again *)

Lemma set_line_pos_twice v v' p : set_line_pos v (set_line_pos v' p) = set_line_pos v p.
Proof. reflexivity. Qed.

Lemma set_line_pos_same p : set_line_pos (line_pos p) p = p.
Proof. now destruct p. Qed.

Lemma renumber_outside l : forall h i r, ~ In r l -> renumber h i l r = h r.
Proof.
  induction l as [|x t IH]; intros h i r Hr; [reflexivity|].
  simpl. rewrite IH by (simpl in Hr; tauto).
  unfold upd. destruct (Nat.eqb_spec r x); [|reflexivity].
  subst. simpl in Hr. tauto.
Qed.

(** Renumbering writes [line_pos] and nothing else. *)
Lemma renumber_fields l : forall h i r,
  renumber h i l r = set_line_pos (line_pos (renumber h i l r)) (h r).
Proof.
  induction l as [|x t IH]; intros h i r.
  - simpl. now rewrite set_line_pos_same.
  - simpl. rewrite IH at 1.
    generalize (line_pos (renumber (upd h x (set_line_pos (Z.of_nat i) (h x))) (S i) t r)).
    intros v. unfold upd. destruct (Nat.eqb_spec r x); [|reflexivity].
    now subst.
Qed.

Lemma renumber_ordinals l : forall h i,
  NoDup l ->
  map (fun r => line_pos (renumber h i l r)) l = map Z.of_nat (seq i (length l)).
Proof.
  induction l as [|x t IH]; intros h i Hnd; [reflexivity|].
  inversion Hnd as [|x' t' Hx Ht]; subst.
  simpl. rewrite IH by assumption. f_equal.
  rewrite renumber_outside by assumption.
  unfold upd. now rewrite Nat.eqb_refl.
Qed.

Lemma renumber_fixed l : forall h i,
  map (fun r => line_pos (h r)) l = map Z.of_nat (seq i (length l)) ->
  forall r, renumber h i l r = h r.
Proof.
  induction l as [|x t IH]; intros h i Hpos r; [reflexivity|].
  simpl in Hpos. injection Hpos as Hx Ht. simpl.
  assert (Hupd : forall r', upd h x (set_line_pos (Z.of_nat i) (h x)) r' = h r').
  { intros r'. unfold upd. destruct (Nat.eqb_spec r' x); [|reflexivity].
    subst. rewrite <- Hx. apply set_line_pos_same. }
  rewrite IH.
  - apply Hupd.
  - rewrite <- Ht. apply map_ext. intros r'. now rewrite Hupd.
Qed.

(** ** The comparison reads coordinates only *)

Lemma same_place_ext h1 h2 :
  (forall r, coord_of h1 r = coord_of h2 r) ->
  forall a b, same_place h1 a b = same_place h2 a b.
Proof. intros H a b. unfold same_place. now rewrite !H. Qed.

Lemma pass_after_ext h1 h2 :
  (forall r, coord_of h1 r = coord_of h2 r) ->
  forall l p, pass_after h1 p l = pass_after h2 p l.
Proof.
  intros H l. induction l as [|b t IH]; intros p; [reflexivity|].
  simpl. now rewrite IH, (same_place_ext h1 h2 H).
Qed.

Lemma single_pass_ext h1 h2 :
  (forall r, coord_of h1 r = coord_of h2 r) ->
  forall l, single_pass h1 l = single_pass h2 l.
Proof.
  intros H [|a t]; [reflexivity|]. simpl. now rewrite (pass_after_ext h1 h2 H).
Qed.

Lemma coord_of_set_line_pos h h' v :
  (forall r, h' r = set_line_pos (v r) (h r)) ->
  forall r, coord_of h' r = coord_of h r.
Proof. intros H r. unfold coord_of. now rewrite H. Qed.

Lemma coord_of_renumber h i l r : coord_of (renumber h i l) r = coord_of h r.
Proof. unfold coord_of. now rewrite renumber_fields. Qed.

Lemma coord_of_with_horizon o p :
  (east (with_horizon o p), north (with_horizon o p), alt (with_horizon o p))
  = (east p, north p, alt p).
Proof. now destruct o. Qed.

Lemma line_pos_with_horizon o p : line_pos (with_horizon o p) = line_pos p.
Proof. now destruct o. Qed.

(** ** What the single pass leaves *)

Lemma pass_after_In h l : forall p r, In r (pass_after h p l) -> In r l.
Proof.
  induction l as [|b t IH]; intros p r; [tauto|].
  simpl. destruct (same_place h p b); simpl; intros H.
  - right. eauto.
  - destruct H; [now left|right; eauto].
Qed.

Lemma pass_after_NoDup h l : forall p, NoDup l -> NoDup (pass_after h p l).
Proof.
  induction l as [|b t IH]; intros p Hnd; [constructor|].
  inversion Hnd as [|b' t' Hb Ht]; subst.
  simpl. destruct (same_place h p b); [now apply IH|].
  constructor; [|now apply IH].
  intros Hin. apply Hb. eapply pass_after_In. eassumption.
Qed.

Lemma single_pass_NoDup h l : NoDup l -> NoDup (single_pass h l).
Proof.
  destruct l as [|a t]; [constructor|]. intros Hnd.
  inversion Hnd as [|a' t' Ha Ht]; subst. simpl.
  constructor; [|now apply pass_after_NoDup].
  intros Hin. apply Ha. eapply pass_after_In. eassumption.
Qed.

Lemma pass_after_length h l : forall p, length (pass_after h p l) <= length l.
Proof.
  induction l as [|b t IH]; intros p; [reflexivity|].
  simpl. specialize (IH b). destruct (same_place h p b); simpl; lia.
Qed.

(** A second pass finds nothing to remove. *)
Lemma pass_after_idem h l : forall p q,
  p = q \/ same_place h p q = true ->
  pass_after h p (pass_after h q l) = pass_after h q l.
Proof.
  induction l as [|b t IH]; intros p q Hpq; [reflexivity|].
  simpl. destruct (same_place h q b) eqn:Eqb.
  - apply IH. right. destruct Hpq as [->|Hpq]; [assumption|].
    eapply same_place_trans; eassumption.
  - simpl. assert (Epb : same_place h p b = false).
    { destruct Hpq as [->|Hpq]; [assumption|].
      destruct (same_place h p b) eqn:Epb; [|reflexivity].
      rewrite <- Eqb. symmetry.
      eapply same_place_trans; [apply same_place_sym|]; eassumption. }
    rewrite Epb. f_equal. apply IH. now left.
Qed.

Lemma single_pass_idem h l : single_pass h (single_pass h l) = single_pass h l.
Proof.
  destruct l as [|a t]; [reflexivity|]. simpl. f_equal.
  apply pass_after_idem. now left.
Qed.

Lemma app_same_length {A} (l1 : list A) : forall l1' l2 l2',
  length l1 = length l1' -> l1 ++ l2 = l1' ++ l2' -> l1 = l1' /\ l2 = l2'.
Proof.
  induction l1 as [|a l1 IH]; intros [|a' l1'] l2 l2' Hlen H; try discriminate.
  - now split.
  - simpl in *. injection H as -> H. injection Hlen as Hlen.
    destruct (IH _ _ _ Hlen H) as [-> ->]. now split.
Qed.

Lemma pass_after_fixed_snoc h x t z :
  pass_after h x (t ++ [z]) = t ++ [z] ->
  pass_after h x t = t /\ same_place h (last t x) z = false.
Proof.
  rewrite pass_after_app. intros H.
  pose proof (pass_after_length h t x) as Hlen.
  assert (Hlen' : length (pass_after h x t) = length t).
  { apply (f_equal (@length ref)) in H. rewrite !length_app in H.
    pose proof (pass_after_length h [z] (last t x)). simpl in *. lia. }
  apply app_same_length in H; [|assumption].
  destruct H as [Ht Hz]. split; [assumption|].
  simpl in Hz. destruct (same_place h (last t x) z); [discriminate|reflexivity].
Qed.

(** ** Renormalizing twice *)

Lemma check_line_self w w' : check_line w = (Ok tt, w') -> self w' = self w.
Proof.
  destruct (check_line_spec w) as (h' & E & _). rewrite E.
  intros H. injection H as <-. reflexivity.
Qed.

Lemma line_eta L l : points L = l -> set_points l L = L.
Proof. destruct L. simpl. now intros <-. Qed.

Lemma normalized_after_check_line h L s w' :
  points L = s ->
  NoDup s ->
  single_pass h s = s ->
  (exists x t, s = x :: t /\ same_place h x (last t x) = false) ->
  check_line (mkWorld (renumber h 0 s) L) = (Ok tt, w') ->
  normalized w'.
Proof.
  intros EL Hnd Hfix (x & t & Es & Hends) Hcheck.
  destruct (check_line_spec (mkWorld (renumber h 0 s) L)) as (h' & E & Hh').
  rewrite E in Hcheck. injection Hcheck as <-. simpl in Hh'. rewrite EL in Hh'.
  assert (Hcoord : forall r, coord_of h' r = coord_of h r).
  { intros r. rewrite <- (coord_of_renumber h 0 s r). unfold coord_of.
    rewrite Hh'. destruct (mem r s); [|reflexivity].
    apply coord_of_with_horizon. }
  unfold normalized, ordinals. simpl. rewrite EL.
  split; [assumption|]. split.
  { now rewrite (single_pass_ext h' h Hcoord). }
  split.
  { exists x, t. split; [assumption|]. now rewrite (same_place_ext h' h Hcoord). }
  split.
  { rewrite <- (renumber_ordinals s h 0 Hnd). apply map_ext_in.
    intros r Hr. rewrite Hh'. apply mem_In in Hr. rewrite Hr.
    apply line_pos_with_horizon. }
  intros r Hr. rewrite Hh'. apply mem_In in Hr. rewrite Hr.
  apply with_horizon_idem.
Qed.

(** A renormalization that returns and leaves points leaves a normalized
    line, when no object was in the sequence twice. *)
Lemma renormalize_reaches_normalized w w' :
  NoDup (points (self w)) ->
  renormalize w = (Ok tt, w') ->
  points (self w') <> [] ->
  normalized w'.
Proof.
  intros Hnd Hrun Hne. unfold renormalize in Hrun.
  apply bind_Ok_inv in Hrun as ([] & w1 & Hrdp & Hcheck).
  pose proof (check_line_self _ _ Hcheck) as Hself.
  rewrite remove_doubled_points_spec in Hrdp by assumption.
  pose proof (single_pass_idem (heap w) (points (self w))) as Hfix.
  pose proof (single_pass_NoDup (heap w) _ Hnd) as Hnd'.
  destruct (single_pass (heap w) (points (self w))) as [|x t]; [discriminate|].
  remember (removelast (x :: t)) as s' eqn:Es'.
  destruct (same_place (heap w) x (last t x)) eqn:Hends;
    injection Hrdp as <-.
  - rewrite Hself in Hne. change (s' <> []) in Hne.
    destruct (exists_last (l := t)) as (t0 & z & ->).
    { intros ->. now apply Hne. }
    rewrite last_last in Hends.
    rewrite (removelast_last (x :: t0) z : removelast (x :: t0 ++ [z]) = x :: t0) in Es'.
    subst s'. clear Hne Hself.
    change (x :: t0 ++ [z]) with ((x :: t0) ++ [z]) in Hnd'.
    simpl in Hfix. injection Hfix as Hfix.
    apply pass_after_fixed_snoc in Hfix as [Hfix Hlast].
    apply (normalized_after_check_line (heap w)
             (set_closed true (set_points (x :: t0) (self w))) (x :: t0));
      [| | | |exact Hcheck].
    + reflexivity.
    + now apply NoDup_app_remove_r in Hnd'.
    + simpl. now rewrite Hfix.
    + exists x, t0. split; [reflexivity|].
      destruct (same_place (heap w) x (last t0 x)) eqn:E; [|reflexivity].
      rewrite <- Hlast. symmetry.
      eapply same_place_trans; [apply same_place_sym|]; eassumption.
  - apply (normalized_after_check_line (heap w) (set_points (x :: t) (self w)) (x :: t));
      [reflexivity|assumption|assumption| |exact Hcheck].
    now exists x, t.
Qed.

(** On a normalized line the renormalization returns and changes
    nothing: not the sequence, not the ordinals, not the flag. *)
Lemma renormalize_fixes_normalized w :
  normalized w ->
  exists w', renormalize w = (Ok tt, w') /\ same_world w' w.
Proof.
  intros (Hnd & Hfix & (x & t & El & Hends) & Hord & Hhor).
  unfold renormalize.
  assert (Hrdp : remove_doubled_points w
           = (Ok tt, mkWorld (renumber (heap w) 0 (points (self w))) (self w))).
  { rewrite remove_doubled_points_spec by assumption.
    rewrite Hfix, El, Hends, <- El. now rewrite line_eta. }
  rewrite (bind_ok _ _ _ _ _ Hrdp).
  destruct (check_line_spec (mkWorld (renumber (heap w) 0 (points (self w))) (self w)))
    as (h' & E & Hh').
  exists (mkWorld h' (self w)). split; [assumption|].
  split; [reflexivity|]. simpl in *. intros r.
  rewrite Hh', (renumber_fixed _ _ _ Hord).
  destruct (mem r (points (self w))) eqn:Hr; [|reflexivity].
  apply Hhor. now apply mem_In.
Qed.

(** The renormalization is idempotent on every line it leaves with
    points, if no object was in the sequence twice. *)
Theorem renormalize_idempotent w w' :
  NoDup (points (self w)) ->
  renormalize w = (Ok tt, w') ->
  points (self w') <> [] ->
  exists w'', renormalize w' = (Ok tt, w'') /\ same_world w'' w'.
Proof.
  intros Hnd Hrun Hne. apply renormalize_fixes_normalized.
  eapply renormalize_reaches_normalized; eassumption.
Qed.

(** C5.  Where the renormalization is not a fixed point: the line the
    constructor leaves of one point has no point, and running the
    renormalization on it again (as [insert_points] with no points does)
    raises [IndexError] instead of returning with nothing changed. *)
Theorem renormalizing_an_emptied_line_raises h (c : bool) o r :
  same_place h r r = true ->
  exists w',
    new_Line h c (horizon_obj o) [PyGeoPoint r] = (Ok tt, w')
    /\ points (self w') = []
    /\ renormalize w' = (Raise IndexError, w')
    /\ insert_points [] 0 w' = (Raise IndexError, w').
Proof.
  intros Hrr. eexists. split; [now apply new_Line_of_one_point|].
  split; [reflexivity|].
  assert (Hraise : forall w, points (self w) = [] -> renormalize w = (Raise IndexError, w)).
  { intros w E. unfold renormalize.
    now rewrite (bind_raise _ _ _ _ _ (remove_doubled_points_empty w E)). }
  split; [now apply Hraise|].
  rewrite insert_points_nothing by reflexivity. now apply Hraise.
Qed.

Lemma renormalizing_an_emptied_line_raises_witness :
  exists w',
    new_Line sample_heap false PyNone [PyGeoPoint 5] = (Ok tt, w')
    /\ points (self w') = []
    /\ renormalize w' = (Raise IndexError, w')
    /\ insert_points [] 0 w' = (Raise IndexError, w').
Proof.
  apply (renormalizing_an_emptied_line_raises sample_heap false None 5). reflexivity.
Defined.

Lemma renormalize_idempotent_on_ring :
  exists w'',
    renormalize (snd (new_Line sample_heap false PyNone
                        [PyGeoPoint 0; PyGeoPoint 1; PyGeoPoint 2; PyGeoPoint 4]))
    = (Ok tt, w'')
    /\ same_world w''
         (snd (new_Line sample_heap false PyNone
                 [PyGeoPoint 0; PyGeoPoint 1; PyGeoPoint 2; PyGeoPoint 4])).
Proof.
  apply (renormalize_idempotent
           (mkWorld sample_heap (mkLine 0 false None (Some (-1)%Z) [0; 1; 2; 4]))).
  - simpl. repeat (constructor; [simpl; intuition discriminate|]). constructor.
  - reflexivity.
  - discriminate.
Defined.

(** Why the sequence must hold no object twice: [list.remove] takes out the
    first occurrence of the object, not the one at the index compared.
    Object 0 closes the ring [0; 1; 4; 0] and object 4 lies on its place;
    the pass drops the leading 0 and leaves 4 and 0 next to each other. *)
Example repeated_object_goes_first :
  points (self (snd (new_Line sample_heap false PyNone
                       [PyGeoPoint 0; PyGeoPoint 1; PyGeoPoint 4; PyGeoPoint 0])))
  = [1; 4; 0].
Proof. reflexivity. Qed.

(** * Further properties *)

(** ** What a method keeps, step by step *)

Section Keeps.
Variable R : world -> world -> Prop.
Hypothesis R_refl : forall w, R w w.
Hypothesis R_trans : forall w1 w2 w3, R w1 w2 -> R w2 w3 -> R w1 w3.

Lemma keeps_pure {A} (m : M A) : (forall w, snd (m w) = w) -> keeps R m.
Proof. intros H w. rewrite H. apply R_refl. Qed.

Lemma keeps_bind {A B} (m : M A) (k : A -> M B) :
  keeps R m -> (forall a, keeps R (k a)) -> keeps R (bind m k).
Proof.
  intros Hm Hk w. unfold bind. specialize (Hm w).
  destruct (m w) as [[a|e] w1]; simpl in *; [|assumption].
  eapply R_trans; [exact Hm|apply Hk].
Qed.

Lemma keeps_for_each {A} (body : A -> M unit) l :
  (forall x, keeps R (body x)) -> keeps R (for_each l body).
Proof.
  intros Hbody. induction l as [|x t IH]; simpl.
  - now apply keeps_pure.
  - apply keeps_bind; [apply Hbody|intros _; exact IH].
Qed.

Lemma keeps_lift {A} e (o : option A) : keeps R (lift e o).
Proof. destruct o; now apply keeps_pure. Qed.

Lemma keeps_coord r : keeps R (coord r).
Proof. now apply keeps_pure. Qed.

Lemma keeps_points_getitem i : keeps R (points_getitem i).
Proof.
  apply keeps_bind; [now apply keeps_pure|]. intros l. apply keeps_lift.
Qed.

Hypothesis R_remove : forall p, keeps R (points_remove p).
Hypothesis R_delitem : forall i, keeps R (points_delitem i).
Hypothesis R_close : keeps R (modify_self (set_closed true)).
Hypothesis R_line_pos : forall r v, keeps R (modify_point r (set_line_pos v)).
Hypothesis R_hor : forall r v, keeps R (modify_point r (set_hor v)).
Hypothesis R_horizon_id : forall r v, keeps R (modify_point r (set_horizon_id v)).

Lemma keeps_remove_adjacent tmp_pnts : keeps R (remove_adjacent tmp_pnts).
Proof.
  apply keeps_for_each. intros i. unfold compare_adjacent.
  apply keeps_bind; [apply keeps_lift|]. intros a.
  apply keeps_bind; [apply keeps_lift|]. intros b.
  apply keeps_bind; [apply keeps_coord|]. intros c1.
  apply keeps_bind; [apply keeps_coord|]. intros c2.
  destruct (coord_eqb c1 c2); [apply R_remove|now apply keeps_pure].
Qed.

Lemma keeps_fold_closure : keeps R fold_closure.
Proof.
  unfold fold_closure.
  apply keeps_bind; [apply keeps_points_getitem|]. intros a.
  apply keeps_bind; [apply keeps_points_getitem|]. intros b.
  apply keeps_bind; [apply keeps_coord|]. intros c1.
  apply keeps_bind; [apply keeps_coord|]. intros c2.
  destruct (coord_eqb c1 c2); [|now apply keeps_pure].
  apply keeps_bind; [apply R_delitem|]. intros _. apply R_close.
Qed.

Lemma keeps_reorder_from l : forall i, keeps R (reorder_from i l).
Proof.
  induction l as [|r t IH]; intros i; simpl.
  - now apply keeps_pure.
  - apply keeps_bind; [apply R_line_pos|]. intros _. apply IH.
Qed.

Lemma keeps_remove_doubled_points : keeps R remove_doubled_points.
Proof.
  unfold remove_doubled_points.
  apply keeps_bind; [now apply keeps_pure|]. intros l.
  apply keeps_bind; [apply keeps_remove_adjacent|]. intros _.
  apply keeps_bind; [apply keeps_fold_closure|]. intros _.
  apply keeps_bind; [now apply keeps_pure|]. intros l'.
  apply keeps_reorder_from.
Qed.

Lemma keeps_GeoPoint_set_horizon r value : keeps R (GeoPoint_set_horizon r value).
Proof.
  destruct value; simpl; try now apply keeps_pure.
  - apply keeps_bind; [apply R_hor|]. intros _. apply R_horizon_id.
  - apply R_hor.
Qed.

Lemma keeps_check_line : keeps R check_line.
Proof.
  unfold check_line.
  apply keeps_bind; [now apply keeps_pure|]. intros l.
  apply keeps_for_each. intros point.
  apply keeps_bind; [now apply keeps_pure|]. intros l'.
  apply keeps_GeoPoint_set_horizon.
Qed.

Lemma keeps_renormalize : keeps R renormalize.
Proof.
  unfold renormalize. apply keeps_bind; [apply keeps_remove_doubled_points|].
  intros _. apply keeps_check_line.
Qed.

Lemma keeps_delete_point point : keeps R (delete_point point).
Proof.
  unfold delete_point. apply keeps_bind.
  - destruct point; try now apply keeps_pure. apply R_remove.
  - intros _. apply keeps_renormalize.
Qed.

Lemma keeps_scan_points fp e n a snapshot : keeps R (scan_points fp e n a snapshot).
Proof.
  induction snapshot as [|pnt rest IH]; simpl; [now apply keeps_pure|].
  apply keeps_bind; [now apply keeps_pure|]. intros [|]; [|exact IH].
  apply keeps_bind; [apply R_remove|]. intros _. apply keeps_renormalize.
Qed.

Lemma keeps_delete_point_by_coordinates fp e n a :
  keeps R (delete_point_by_coordinates fp e n a).
Proof.
  unfold delete_point_by_coordinates.
  apply keeps_bind; [now apply keeps_pure|]. intros l. apply keeps_scan_points.
Qed.

Hypothesis R_set_points :
  forall g : Line -> list ref, keeps R (modify_self (fun l => set_points (g l) l)).
Hypothesis R_set_l_hor : forall v, keeps R (modify_self (set_l_hor v)).
Hypothesis R_set_l_horizon_id : forall v, keeps R (modify_self (set_l_horizon_id v)).

Lemma keeps_Line_set_horizon value : keeps R (Line_set_horizon value).
Proof.
  unfold Line_set_horizon. apply keeps_bind; [|intros _; apply keeps_check_line].
  destruct value; try now apply keeps_pure.
  - apply keeps_bind; [apply R_set_l_hor|]. intros _. apply R_set_l_horizon_id.
  - apply R_set_l_hor.
Qed.

Lemma keeps_insert_point point position : keeps R (insert_point point position).
Proof.
  unfold insert_point. apply keeps_bind; [|intros _; apply keeps_renormalize].
  destruct point; try now apply keeps_pure.
  apply (R_set_points (fun l => PyList.insert (points l) position r)).
Qed.

Lemma keeps_insert_points pts position : keeps R (insert_points pts position).
Proof.
  unfold insert_points.
  apply keeps_bind.
  { apply keeps_for_each. intros [| | |]; now apply keeps_pure. }
  intros _. apply keeps_bind; [now apply keeps_pure|]. intros l.
  apply keeps_bind; [|intros _; apply keeps_renormalize].
  destruct (Z.of_nat (length (points l)) <=? position)%Z.
  - apply (R_set_points (fun _ => PyList.setslice (points l) (-1) (-1) (refs_of pts))).
  - apply (R_set_points
             (fun _ => PyList.setslice (points l) position position (refs_of pts))).
Qed.

Lemma keeps_method fp c : is_method c = true -> keeps R (run fp c).
Proof.
  destruct c; simpl; intros H; try discriminate.
  - apply keeps_insert_point.
  - apply keeps_insert_points.
  - apply keeps_delete_point.
  - apply keeps_delete_point_by_coordinates.
  - apply keeps_Line_set_horizon.
Qed.
End Keeps.

(** ** Normalizing and deleting only take points out *)

Lemma subseq_refl l : subseq l l.
Proof. induction l; [apply subseq_nil|now apply subseq_take]. Qed.

Lemma subseq_trans l1 l2 l3 : subseq l1 l2 -> subseq l2 l3 -> subseq l1 l3.
Proof.
  intros H12 H23. revert l1 H12.
  induction H23 as [|x l2 l3 H23 IH|x l2 l3 H23 IH]; intros l1 H12.
  - assumption.
  - constructor. now apply IH.
  - inversion H12; subst.
    + apply subseq_skip. now apply IH.
    + apply subseq_take. now apply IH.
Qed.

Lemma subseq_In l1 l2 : subseq l1 l2 -> forall r, In r l1 -> In r l2.
Proof.
  induction 1 as [|x l1 l2 H IH|x l1 l2 H IH]; intros r Hr; simpl in *; intuition.
Qed.

Lemma subseq_length l1 l2 : subseq l1 l2 -> length l1 <= length l2.
Proof. induction 1; simpl; lia. Qed.

Lemma subseq_remove l : forall x l',
  PyList.remove Nat.eqb l x = Some l' -> subseq l' l.
Proof.
  induction l as [|y t IH]; simpl; intros x l' H; [discriminate|].
  destruct (Nat.eqb y x).
  - injection H as <-. apply subseq_skip. apply subseq_refl.
  - destruct (PyList.remove Nat.eqb t x) as [t'|] eqn:E; [|discriminate].
    injection H as <-. apply subseq_take. now apply (IH x).
Qed.

Lemma subseq_cut (l : list ref) : forall k, subseq (firstn k l ++ skipn (S k) l) l.
Proof.
  induction l as [|y t IH]; intros k.
  - rewrite firstn_nil, skipn_nil. apply subseq_nil.
  - destruct k as [|k]; simpl.
    + apply subseq_skip. apply subseq_refl.
    + apply subseq_take. apply IH.
Qed.

Lemma only_removes_refl w : only_removes w w.
Proof. apply subseq_refl. Qed.

Lemma only_removes_trans w1 w2 w3 :
  only_removes w1 w2 -> only_removes w2 w3 -> only_removes w1 w3.
Proof. unfold only_removes. intros H12 H23. eapply subseq_trans; eassumption. Qed.

Lemma only_removes_points_remove p : keeps only_removes (points_remove p).
Proof.
  intros w. unfold points_remove, bind, get_self, only_removes.
  destruct (PyList.remove Nat.eqb (points (self w)) p) as [l'|] eqn:E; simpl.
  - now apply (subseq_remove _ p).
  - apply subseq_refl.
Qed.

Lemma only_removes_points_delitem i : keeps only_removes (points_delitem i).
Proof.
  intros w. unfold points_delitem, bind, get_self, only_removes, PyList.delitem.
  destruct (PyList.norm_index (points (self w)) i) as [k|]; simpl.
  - apply subseq_cut.
  - apply subseq_refl.
Qed.

Lemma only_removes_modify_point r f : keeps only_removes (modify_point r f).
Proof. intros w. apply subseq_refl. Qed.

Lemma only_removes_modify_self f :
  (forall l, points (f l) = points l) -> keeps only_removes (modify_self f).
Proof. intros Hf w. unfold only_removes. simpl. rewrite Hf. apply subseq_refl. Qed.

(** Discharges the steps the relation has to be kept by. *)
Ltac removal_steps :=
  first [ exact only_removes_refl
        | exact only_removes_trans
        | exact only_removes_points_remove
        | exact only_removes_points_delitem
        | intros; apply only_removes_modify_point
        | intros; apply only_removes_modify_self; reflexivity ].

Lemma only_removes_renormalize : keeps only_removes renormalize.
Proof. apply keeps_renormalize; removal_steps. Qed.

(** X1.  The renormalization and the two deletions never add a point to
    the line nor change the order of the points that stay: the sequence
    they leave, on return or on an exception, is the old one with points
    taken out. *)
Theorem deletions_only_take_points_out fp (w : world) :
  subseq (points (self (snd (renormalize w)))) (points (self w))
  /\ (forall point,
        subseq (points (self (snd (delete_point point w)))) (points (self w)))
  /\ (forall e n a,
        subseq (points (self (snd (delete_point_by_coordinates fp e n a w))))
               (points (self w))).
Proof.
  split; [apply only_removes_renormalize|]. split.
  - intros point. apply (keeps_delete_point only_removes); removal_steps.
  - intros e n a. apply (keeps_delete_point_by_coordinates only_removes); removal_steps.
Qed.

(** ** What no call changes in a point *)

Lemma same_geometry_refl w : same_geometry w w.
Proof. intros r. reflexivity. Qed.

Lemma same_geometry_trans w1 w2 w3 :
  same_geometry w1 w2 -> same_geometry w2 w3 -> same_geometry w1 w3.
Proof. intros H12 H23 r. now rewrite H23, H12. Qed.

Lemma same_geometry_modify_self f : keeps same_geometry (modify_self f).
Proof. intros w r. reflexivity. Qed.

Lemma same_geometry_modify_point r f :
  (forall p, geometry_of (f p) = geometry_of p) ->
  keeps same_geometry (modify_point r f).
Proof.
  intros Hf w r'. simpl. unfold upd. destruct (Nat.eqb_spec r' r); [|reflexivity].
  subst. apply Hf.
Qed.

Lemma same_geometry_points_remove p : keeps same_geometry (points_remove p).
Proof.
  apply (keeps_bind same_geometry same_geometry_trans).
  - now apply (keeps_pure same_geometry same_geometry_refl).
  - intros l. apply (keeps_bind same_geometry same_geometry_trans).
    + apply (keeps_lift same_geometry same_geometry_refl).
    + intros pts. apply same_geometry_modify_self.
Qed.

Lemma same_geometry_points_delitem i : keeps same_geometry (points_delitem i).
Proof.
  apply (keeps_bind same_geometry same_geometry_trans).
  - now apply (keeps_pure same_geometry same_geometry_refl).
  - intros l. apply (keeps_bind same_geometry same_geometry_trans).
    + apply (keeps_lift same_geometry same_geometry_refl).
    + intros pts. apply same_geometry_modify_self.
Qed.

(** Discharges the steps the relation has to be kept by. *)
Ltac geometry_steps :=
  first [ exact same_geometry_refl
        | exact same_geometry_trans
        | exact same_geometry_points_remove
        | exact same_geometry_points_delitem
        | intros; apply same_geometry_modify_self
        | intros; apply same_geometry_modify_point; intros p; reflexivity ].

Lemma same_geometry_method fp c : is_method c = true -> keeps same_geometry (run fp c).
Proof. apply keeps_method; geometry_steps. Qed.

Lemma same_geometry_Line_init cl hz pts : keeps same_geometry (Line_init cl hz pts).
Proof.
  unfold Line_init. apply (keeps_bind same_geometry same_geometry_trans).
  { apply keeps_for_each; [geometry_steps..|].
    intros [| | |]; now apply (keeps_pure same_geometry same_geometry_refl). }
  intros _. apply (keeps_bind same_geometry same_geometry_trans); [geometry_steps|].
  intros _. apply (keeps_bind same_geometry same_geometry_trans).
  { apply keeps_Line_set_horizon; geometry_steps. }
  intros _. apply (keeps_bind same_geometry same_geometry_trans); [geometry_steps|].
  intros _. apply keeps_renormalize; geometry_steps.
Qed.

(** X2.  No call on a line, the constructor included, changes the key, the
    coordinates, the z flag or the line of any point in the store, whether
    the call returns or raises: the line methods write [hor], [horizon_id]
    and [line_pos] of points and nothing else. *)
Theorem calls_leave_coordinates_alone fp (c : call) (w : world) (r : ref) :
  geometry_of (heap (snd (run fp c w)) r) = geometry_of (heap w r).
Proof.
  revert w r. change (keeps same_geometry (run fp c)).
  destruct (is_method c) eqn:Hc.
  - now apply same_geometry_method.
  - destruct c; try discriminate. apply same_geometry_Line_init.
Qed.

(** ** A closed line stays closed *)

Lemma stays_closed_refl w : stays_closed w w.
Proof. now split. Qed.

Lemma stays_closed_trans w1 w2 w3 :
  stays_closed w1 w2 -> stays_closed w2 w3 -> stays_closed w1 w3.
Proof. intros [Hi Hc] [Hi' Hc']. split; [congruence|auto]. Qed.

Lemma stays_closed_modify_self f :
  (forall l, l_id (f l) = l_id l) ->
  (forall l, closed l = true -> closed (f l) = true) ->
  keeps stays_closed (modify_self f).
Proof. intros Hi Hc w. split; simpl; auto. Qed.

Lemma stays_closed_modify_point r f : keeps stays_closed (modify_point r f).
Proof. intros w. now split. Qed.

Lemma stays_closed_points_remove p : keeps stays_closed (points_remove p).
Proof.
  apply (keeps_bind stays_closed stays_closed_trans).
  - now apply (keeps_pure stays_closed stays_closed_refl).
  - intros l. apply (keeps_bind stays_closed stays_closed_trans).
    + apply (keeps_lift stays_closed stays_closed_refl).
    + intros pts. now apply stays_closed_modify_self.
Qed.

Lemma stays_closed_points_delitem i : keeps stays_closed (points_delitem i).
Proof.
  apply (keeps_bind stays_closed stays_closed_trans).
  - now apply (keeps_pure stays_closed stays_closed_refl).
  - intros l. apply (keeps_bind stays_closed stays_closed_trans).
    + apply (keeps_lift stays_closed stays_closed_refl).
    + intros pts. now apply stays_closed_modify_self.
Qed.

(** Discharges the steps the relation has to be kept by. *)
Ltac closed_steps :=
  first [ exact stays_closed_refl
        | exact stays_closed_trans
        | exact stays_closed_points_remove
        | exact stays_closed_points_delitem
        | intros; apply stays_closed_modify_point
        | intros; apply stays_closed_modify_self; intros; auto ].

(** X3.  No method of a line ([insert_point], [insert_points],
    [delete_point], [delete_point_by_coordinates], the [horizon] setter)
    ever clears [closed]: on a closed line the flag is still set when the
    call returns or raises. *)
Theorem methods_never_reopen_a_line fp (c : call) (w : world) :
  is_method c = true ->
  closed (self w) = true ->
  closed (self (snd (run fp c w))) = true.
Proof.
  intros Hc Hclosed.
  assert (H : keeps stays_closed (run fp c))
    by (apply keeps_method; first [assumption|closed_steps]).
  now apply (H w).
Qed.

Lemma methods_never_reopen_a_line_witness :
  closed (self (snd (run 0.5 (CallDeleteByCoordinates 1 1 0)
                       (mkWorld sample_heap (mkLine 7 true None None [0; 1; 2])))))
  = true.
Proof.
  apply methods_never_reopen_a_line; reflexivity.
Defined.

(** ** What a renormalized line looks like *)

Lemma ordinals_of_normalized_or_empty w w' :
  NoDup (points (self w)) ->
  renormalize w = (Ok tt, w') ->
  points (self w') = [] \/ normalized w'.
Proof.
  intros Hnd Hrun. destruct (points (self w')) as [|x t] eqn:E; [now left|].
  right. apply (renormalize_reaches_normalized w w' Hnd Hrun). now rewrite E.
Qed.

(** X4.  When a renormalization returns, the [line_pos] of the points of
    the line are 0, 1, 2, ... in the order of the sequence (for a sequence
    that held no object twice). *)
Theorem ordinals_are_dense (w w' : world) :
  NoDup (points (self w)) ->
  renormalize w = (Ok tt, w') ->
  ordinals w' = map Z.of_nat (seq 0 (length (points (self w')))).
Proof.
  intros Hnd Hrun.
  destruct (ordinals_of_normalized_or_empty w w' Hnd Hrun) as [E|Hnorm].
  - unfold ordinals. now rewrite E.
  - apply Hnorm.
Qed.

Lemma ordinals_are_dense_witness :
  ordinals (snd (renormalize
                   (mkWorld sample_heap (mkLine 7 false None None [0; 4; 1; 2; 3]))))
  = [0; 1; 2; 3]%Z.
Proof.
  apply (ordinals_are_dense
           (mkWorld sample_heap (mkLine 7 false None None [0; 4; 1; 2; 3]))).
  - simpl. repeat (constructor; [simpl; intuition discriminate|]). constructor.
  - reflexivity.
Defined.

Lemma pass_after_fixed_adjacent h l : forall p,
  pass_after h p l = l ->
  forall l1 a b l2, p :: l = l1 ++ a :: b :: l2 -> same_place h a b = false.
Proof.
  induction l as [|c t IH]; intros p Hfix l1 a b l2 E.
  - destruct l1 as [|x [|y l1]]; discriminate.
  - simpl in Hfix. destruct (same_place h p c) eqn:Epc.
    + pose proof (pass_after_length h t c) as Hlen.
      rewrite Hfix in Hlen. simpl in Hlen. lia.
    + injection Hfix as Hfix. destruct l1 as [|x l1].
      * injection E as <- <- _. assumption.
      * injection E as _ E. now apply (IH c Hfix l1 a b l2).
Qed.

Lemma single_pass_fixed_adjacent h l :
  single_pass h l = l -> no_adjacent_duplicates h l.
Proof.
  destruct l as [|p t]; intros Hfix l1 a b l2 E.
  - destruct l1; discriminate.
  - simpl in Hfix. injection Hfix as Hfix.
    now apply (pass_after_fixed_adjacent h t p Hfix l1 a b l2).
Qed.

(** X5.  When a renormalization returns, no point of the line lies on the
    place of the point before it, and the last point does not lie on the
    place of the first (for a sequence that held no object twice). *)
Theorem renormalized_line_has_no_adjacent_duplicates (w w' : world) :
  NoDup (points (self w)) ->
  renormalize w = (Ok tt, w') ->
  no_adjacent_duplicates (heap w') (points (self w'))
  /\ (forall x t, points (self w') = x :: t ->
                  same_place (heap w') x (last t x) = false).
Proof.
  intros Hnd Hrun.
  destruct (ordinals_of_normalized_or_empty w w' Hnd Hrun) as [E|Hnorm].
  - rewrite E. split.
    + intros l1 a b l2 H. destruct l1; discriminate.
    + intros x t H. discriminate.
  - destruct Hnorm as (_ & Hfix & (x & t & E & Hends) & _). split.
    + now apply single_pass_fixed_adjacent.
    + intros x' t' E'. rewrite E in E'. injection E' as <- <-. assumption.
Qed.

Lemma renormalized_line_has_no_adjacent_duplicates_witness :
  no_adjacent_duplicates
    (heap (snd (renormalize
                  (mkWorld sample_heap (mkLine 7 false None None [0; 4; 1; 2; 3])))))
    [0; 1; 2; 3]
  /\ (forall x t, [0; 1; 2; 3] = x :: t ->
        same_place
          (heap (snd (renormalize
                        (mkWorld sample_heap (mkLine 7 false None None [0; 4; 1; 2; 3])))))
          x (last t x) = false).
Proof.
  apply (renormalized_line_has_no_adjacent_duplicates
           (mkWorld sample_heap (mkLine 7 false None None [0; 4; 1; 2; 3]))).
  - simpl. repeat (constructor; [simpl; intuition discriminate|]). constructor.
  - reflexivity.
Defined.

(** ** Looking a point up *)

Lemma list_index_first pre : forall r post,
  ~ In r pre -> list_index (pre ++ r :: post) r = Some (length pre).
Proof.
  induction pre as [|x pre IH]; simpl; intros r post H.
  - now rewrite Nat.eqb_refl.
  - destruct (Nat.eqb_spec x r); [tauto|].
    rewrite IH by tauto. reflexivity.
Qed.

Lemma list_index_absent l : forall r, ~ In r l -> list_index l r = None.
Proof.
  induction l as [|x l IH]; simpl; intros r H; [reflexivity|].
  destruct (Nat.eqb_spec x r); [tauto|].
  rewrite IH by tauto. reflexivity.
Qed.

Lemma get_point_index_found w r pre post :
  points (self w) = pre ++ r :: post -> ~ In r pre ->
  get_point_index (PyGeoPoint r) w = (Ok (Z.of_nat (length pre)), w).
Proof.
  intros E H. unfold get_point_index, bind, get_self.
  now rewrite E, list_index_first.
Qed.

(** X6.  [get_point_index] never changes the state.  It returns the index
    of the first occurrence of the point, and raises [ValueError] for a
    point that is not in the line and for an object that is no point. *)
Theorem get_point_index_finds_first_occurrence (w : world) :
  (forall r pre post,
     points (self w) = pre ++ r :: post -> ~ In r pre ->
     get_point_index (PyGeoPoint r) w = (Ok (Z.of_nat (length pre)), w))
  /\ (forall r, ~ In r (points (self w)) ->
                get_point_index (PyGeoPoint r) w = (Raise ValueError, w))
  /\ (forall o, is_GeoPoint o = false ->
                get_point_index o w = (Raise ValueError, w)).
Proof.
  split; [|split].
  - intros r pre post. apply get_point_index_found.
  - intros r H. unfold get_point_index, bind, get_self.
    now rewrite list_index_absent.
  - intros o H. destruct o; try discriminate; reflexivity.
Qed.

Lemma get_point_index_finds_first_occurrence_witness :
  get_point_index (PyGeoPoint 1) (mkWorld sample_heap (mkLine 7 false None None [0; 1; 2]))
  = (Ok 1%Z, mkWorld sample_heap (mkLine 7 false None None [0; 1; 2]))
  /\ get_point_index (PyGeoPoint 5) (mkWorld sample_heap (mkLine 7 false None None [0; 1; 2]))
     = (Raise ValueError, mkWorld sample_heap (mkLine 7 false None None [0; 1; 2])).
Proof.
  destruct (get_point_index_finds_first_occurrence
              (mkWorld sample_heap (mkLine 7 false None None [0; 1; 2])))
    as (Hfound & Habsent & _).
  split.
  - apply (Hfound 1 [0] [2]); [reflexivity|].
    simpl. intuition discriminate.
  - apply Habsent. simpl. intuition discriminate.
Defined.

Lemma NoDup_split_first (pre : list ref) r post :
  NoDup (pre ++ r :: post) -> ~ In r pre.
Proof.
  intros Hnd Hin. apply NoDup_remove_2 in Hnd. apply Hnd.
  apply in_or_app. now left.
Qed.

(** X7.  After a renormalization that returns, the index
    [get_point_index] gives for a point of the line is the [line_pos]
    stored in that point (for a sequence that held no object twice). *)
Theorem index_is_stored_ordinal (w w' : world) (r : ref) :
  NoDup (points (self w)) ->
  renormalize w = (Ok tt, w') ->
  In r (points (self w')) ->
  get_point_index (PyGeoPoint r) w' = (Ok (line_pos (heap w' r)), w').
Proof.
  intros Hnd Hrun Hr.
  destruct (ordinals_of_normalized_or_empty w w' Hnd Hrun) as [E|Hnorm].
  - rewrite E in Hr. contradiction.
  - destruct Hnorm as (Hnd' & _ & _ & Hord & _).
    destruct (in_split _ _ Hr) as (pre & post & E).
    rewrite E in Hnd'. pose proof (NoDup_split_first pre r post Hnd') as Hpre.
    rewrite (get_point_index_found w' r pre post E Hpre). do 2 f_equal.
    unfold ordinals in Hord. rewrite E in Hord.
    apply (f_equal (fun l => nth_error l (length pre))) in Hord.
    rewrite map_app, nth_error_app2 in Hord by (rewrite length_map; lia).
    rewrite length_map, Nat.sub_diag in Hord. simpl in Hord.
    rewrite nth_error_map, nth_error_seq in Hord.
    assert (Hlt : (length pre <? length (pre ++ r :: post))%nat = true).
    { apply Nat.ltb_lt. rewrite length_app. simpl. lia. }
    rewrite Hlt in Hord. simpl in Hord. now injection Hord as ->.
Qed.

Lemma index_is_stored_ordinal_witness :
  get_point_index (PyGeoPoint 2)
    (snd (renormalize (mkWorld sample_heap (mkLine 7 false None None [0; 4; 1; 2; 3]))))
  = (Ok 2%Z,
     snd (renormalize (mkWorld sample_heap (mkLine 7 false None None [0; 4; 1; 2; 3])))).
Proof.
  apply (index_is_stored_ordinal
           (mkWorld sample_heap (mkLine 7 false None None [0; 4; 1; 2; 3]))).
  - simpl. repeat (constructor; [simpl; intuition discriminate|]). constructor.
  - reflexivity.
  - simpl. tauto.
Defined.

(** ** Deleting a point *)

(** X8.  [delete_point] takes the first occurrence of the point out of
    the sequence, and only that one, before the line is renormalized; for a
    point that is not in the line it raises [ValueError] and the state is
    the one before the call. *)
Theorem delete_point_removes_first_occurrence (w : world) (r : ref) :
  (forall pre post,
     points (self w) = pre ++ r :: post -> ~ In r pre ->
     delete_point (PyGeoPoint r) w
     = renormalize (mkWorld (heap w) (set_points (pre ++ post) (self w))))
  /\ (~ In r (points (self w)) ->
      delete_point (PyGeoPoint r) w = (Raise ValueError, w)).
Proof.
  split.
  - intros pre post E Hpre. unfold delete_point.
    now rewrite (bind_ok _ _ _ _ _ (points_remove_first pre r post w E Hpre)).
  - intros H. unfold delete_point, points_remove, bind, get_self.
    now rewrite remove_absent.
Qed.

Lemma delete_point_removes_first_occurrence_witness :
  delete_point (PyGeoPoint 1) (mkWorld sample_heap (mkLine 7 false None None [0; 1; 2]))
  = renormalize (mkWorld sample_heap (mkLine 7 false None None [0; 2]))
  /\ delete_point (PyGeoPoint 5) (mkWorld sample_heap (mkLine 7 false None None [0; 1; 2]))
     = (Raise ValueError, mkWorld sample_heap (mkLine 7 false None None [0; 1; 2])).
Proof.
  split.
  - apply (proj1 (delete_point_removes_first_occurrence
                    (mkWorld sample_heap (mkLine 7 false None None [0; 1; 2])) 1)
             [0] [2]); [reflexivity|].
    simpl. intuition discriminate.
  - apply (proj2 (delete_point_removes_first_occurrence
                    (mkWorld sample_heap (mkLine 7 false None None [0; 1; 2])) 5)).
    simpl. intuition discriminate.
Defined.

(** ** Where an insertion goes *)

Lemma clip_at {A} (pre post : list A) :
  PyList.clip (pre ++ post) (Z.of_nat (length pre)) = length pre.
Proof.
  unfold PyList.clip. rewrite length_app.
  destruct (Z.ltb_spec (Z.of_nat (length pre)) 0); lia.
Qed.

Lemma clip_beyond {A} (l : list A) i :
  (Z.of_nat (length l) <= i)%Z -> PyList.clip l i = length l.
Proof.
  intros H. unfold PyList.clip. destruct (Z.ltb_spec i 0); lia.
Qed.

Lemma clip_from_end {A} (pre post : list A) :
  post <> [] ->
  PyList.clip (pre ++ post) (- Z.of_nat (length post)) = length pre.
Proof.
  intros Hpost. unfold PyList.clip. rewrite length_app.
  assert (0 < length post) by (destruct post; [congruence|simpl; lia]).
  destruct (Z.ltb_spec (- Z.of_nat (length post)) 0); lia.
Qed.

Lemma clip_before_start {A} (l : list A) i :
  (i <= - Z.of_nat (length l))%Z -> PyList.clip l i = 0.
Proof.
  intros H. unfold PyList.clip. destruct (Z.ltb_spec i 0); lia.
Qed.

Lemma split_at_length {A} (pre post : list A) :
  firstn (length pre) (pre ++ post) = pre /\ skipn (length pre) (pre ++ post) = post.
Proof.
  split.
  - rewrite firstn_app, firstn_all, Nat.sub_diag. simpl. apply app_nil_r.
  - rewrite skipn_app, skipn_all, Nat.sub_diag. reflexivity.
Qed.

Lemma insert_point_at_clip w r position :
  insert_point (PyGeoPoint r) position w
  = renormalize
      (mkWorld (heap w)
         (set_points
            (firstn (PyList.clip (points (self w)) position) (points (self w))
             ++ r :: skipn (PyList.clip (points (self w)) position) (points (self w)))
            (self w))).
Proof. reflexivity. Qed.

(** X9.  Where [insert_point] puts a point before the line is
    renormalized, for an index that [list.insert] accepts (one that fits a
    machine word): at the given index when it lies within the sequence, at
    the end when the index is the length or more, counted from the end for a
    negative index, and at the front when the index is that far below
    zero. *)
Theorem insert_point_places_like_list_insert (w : world) (r : ref) :
  (forall pre post,
     points (self w) = pre ++ post ->
     insert_point (PyGeoPoint r) (Z.of_nat (length pre)) w
     = renormalize (mkWorld (heap w) (set_points (pre ++ r :: post) (self w))))
  /\ (forall position,
        (Z.of_nat (length (points (self w))) <= position)%Z ->
        (position < 2 ^ 63)%Z ->
        insert_point (PyGeoPoint r) position w
        = renormalize (mkWorld (heap w) (set_points (points (self w) ++ [r]) (self w))))
  /\ (forall pre post,
        points (self w) = pre ++ post -> post <> [] ->
        insert_point (PyGeoPoint r) (- Z.of_nat (length post)) w
        = renormalize (mkWorld (heap w) (set_points (pre ++ r :: post) (self w))))
  /\ (forall position,
        (position <= - Z.of_nat (length (points (self w))))%Z ->
        (- 2 ^ 63 <= position)%Z ->
        insert_point (PyGeoPoint r) position w
        = renormalize (mkWorld (heap w) (set_points (r :: points (self w)) (self w)))).
Proof.
  split; [|split; [|split]].
  - intros pre post E. rewrite insert_point_at_clip, E, clip_at.
    now destruct (split_at_length pre post) as [-> ->].
  - intros position H _. rewrite insert_point_at_clip, clip_beyond by assumption.
    now rewrite firstn_all, skipn_all.
  - intros pre post E Hpost. rewrite insert_point_at_clip, E, clip_from_end by assumption.
    now destruct (split_at_length pre post) as [-> ->].
  - intros position H _. rewrite insert_point_at_clip, clip_before_start by assumption.
    reflexivity.
Qed.

Lemma insert_point_places_like_list_insert_witness :
  insert_point (PyGeoPoint 2) 100 (mkWorld sample_heap (mkLine 7 false None None [0; 1]))
  = renormalize (mkWorld sample_heap (mkLine 7 false None None [0; 1; 2]))
  /\ insert_point (PyGeoPoint 2) (-1) (mkWorld sample_heap (mkLine 7 false None None [0; 1]))
     = renormalize (mkWorld sample_heap (mkLine 7 false None None [0; 2; 1]))
  /\ insert_point (PyGeoPoint 2) (-100) (mkWorld sample_heap (mkLine 7 false None None [0; 1]))
     = renormalize (mkWorld sample_heap (mkLine 7 false None None [2; 0; 1])).
Proof.
  destruct (insert_point_places_like_list_insert
              (mkWorld sample_heap (mkLine 7 false None None [0; 1])) 2)
    as (_ & Hend & Hneg & Hfront).
  split; [|split].
  - apply (Hend 100%Z); [simpl; lia|reflexivity].
  - apply (Hneg [0] [1]); [reflexivity|discriminate].
  - apply (Hfront (-100)%Z); [simpl; lia|discriminate].
Defined.

(** ** Inserting several points *)

Lemma insert_points_at_clip w pts position :
  existsb (fun p => negb (is_GeoPoint p)) pts = false ->
  (position < Z.of_nat (length (points (self w))))%Z ->
  insert_points pts position w
  = renormalize
      (mkWorld (heap w)
         (set_points
            (firstn (PyList.clip (points (self w)) position) (points (self w))
             ++ refs_of pts
             ++ skipn (PyList.clip (points (self w)) position) (points (self w)))
            (self w))).
Proof.
  intros Hpts Hpos. unfold insert_points.
  rewrite (bind_ok _ _ _ _ _ (check_points_ok TypeError pts w Hpts)).
  unfold bind at 1, get_self.
  apply Z.leb_gt in Hpos. rewrite Hpos.
  unfold PyList.setslice. now rewrite Nat.max_id.
Qed.

(** X10.  With an index inside the line, counted from the front or, when
    negative, from the end, [insert_points] puts the points, in their order,
    between the points before that index and the points from it on, and
    then renormalizes. *)
Theorem insert_points_splices_inside (w : world) pts :
  existsb (fun p => negb (is_GeoPoint p)) pts = false ->
  (forall pre post,
     points (self w) = pre ++ post -> post <> [] ->
     insert_points pts (Z.of_nat (length pre)) w
     = renormalize
         (mkWorld (heap w) (set_points (pre ++ refs_of pts ++ post) (self w))))
  /\ (forall pre post,
        points (self w) = pre ++ post -> post <> [] ->
        insert_points pts (- Z.of_nat (length post)) w
        = renormalize
            (mkWorld (heap w) (set_points (pre ++ refs_of pts ++ post) (self w)))).
Proof.
  intros Hpts. split.
  - intros pre post E Hpost.
    rewrite insert_points_at_clip; [|assumption|].
    + rewrite E, clip_at. now destruct (split_at_length pre post) as [-> ->].
    + rewrite E, length_app.
      assert (0 < length post) by (destruct post; [congruence|simpl; lia]). lia.
  - intros pre post E Hpost.
    assert (0 < length post) by (destruct post; [congruence|simpl; lia]).
    rewrite insert_points_at_clip; [|assumption|lia].
    rewrite E, clip_from_end by assumption.
    now destruct (split_at_length pre post) as [-> ->].
Qed.

Lemma insert_points_splices_inside_witness :
  insert_points [PyGeoPoint 2; PyGeoPoint 3] 1
    (mkWorld sample_heap (mkLine 7 false None None [0; 1]))
  = renormalize (mkWorld sample_heap (mkLine 7 false None None [0; 2; 3; 1]))
  /\ insert_points [PyGeoPoint 2; PyGeoPoint 3] (-2)
       (mkWorld sample_heap (mkLine 7 false None None [0; 1]))
     = renormalize (mkWorld sample_heap (mkLine 7 false None None [2; 3; 0; 1])).
Proof.
  split.
  - apply (proj1 (insert_points_splices_inside
                    (mkWorld sample_heap (mkLine 7 false None None [0; 1]))
                    [PyGeoPoint 2; PyGeoPoint 3] eq_refl) [0] [1]);
      [reflexivity|discriminate].
  - apply (proj2 (insert_points_splices_inside
                    (mkWorld sample_heap (mkLine 7 false None None [0; 1]))
                    [PyGeoPoint 2; PyGeoPoint 3] eq_refl) [] [0; 1]);
      [reflexivity|discriminate].
Defined.

(** X11.  For an index inside the line, from minus the length up to but
    not including the length, [insert_points] with one point does what
    [insert_point] does with that point. *)
Theorem insert_points_of_one_is_insert_point (w : world) (r : ref) position :
  (- Z.of_nat (length (points (self w))) <= position)%Z ->
  (position < Z.of_nat (length (points (self w))))%Z ->
  insert_points [PyGeoPoint r] position w = insert_point (PyGeoPoint r) position w.
Proof.
  intros _ Hpos. rewrite insert_points_at_clip by (reflexivity || assumption).
  now rewrite insert_point_at_clip.
Qed.

Lemma insert_points_of_one_is_insert_point_witness :
  insert_points [PyGeoPoint 2] (-1) (mkWorld sample_heap (mkLine 7 false None None [0; 1]))
  = insert_point (PyGeoPoint 2) (-1) (mkWorld sample_heap (mkLine 7 false None None [0; 1])).
Proof.
  apply insert_points_of_one_is_insert_point; simpl; lia.
Defined.

(** ** Setting the horizon of a line *)

(** X12.  The [horizon] setter of a line, given none or a stratigraphic
    object, returns and leaves the sequence, the ordinals and [closed] as
    they were; every point of the line gets the horizon, and no point
    outside the line is touched.  Given anything else it raises
    [TypeError] and the state is the one before the call. *)
Theorem horizon_setter_touches_horizons_only (w : world) :
  (forall o,
     exists h',
       Line_set_horizon (horizon_obj o) w
       = (Ok tt,
          mkWorld h'
            (mkLine (l_id (self w)) (closed (self w)) o
               (match o with Some _ => l_horizon_id (self w) | None => Some (-1)%Z end)
               (points (self w))))
       /\ (forall r, In r (points (self w)) ->
                     hor (h' r) = o /\ line_pos (h' r) = line_pos (heap w r))
       /\ (forall r, ~ In r (points (self w)) -> h' r = heap w r))
  /\ (forall value,
        value <> PyNone -> (forall s, value <> PyStratigraphicObject s) ->
        Line_set_horizon value w = (Raise TypeError, w)).
Proof.
  split.
  - intros o.
    set (L := mkLine (l_id (self w)) (closed (self w)) o
                (match o with Some _ => l_horizon_id (self w) | None => Some (-1)%Z end)
                (points (self w))).
    destruct (check_line_spec (mkWorld (heap w) L)) as (h' & E & Hh').
    exists h'. split; [|split].
    + unfold Line_set_horizon. destruct o; exact E.
    + intros r Hr. simpl in Hh'. rewrite Hh'.
      apply mem_In in Hr. rewrite Hr.
      split; [apply hor_with_horizon|apply line_pos_with_horizon].
    + intros r Hr. simpl in Hh'. rewrite Hh'.
      destruct (mem r (points (self w))) eqn:Hm; [|reflexivity].
      apply mem_In in Hm. contradiction.
  - intros value Hnone Hstrat. destruct value; try reflexivity.
    + now contradiction Hnone.
    + now contradiction (Hstrat s).
Qed.

Lemma horizon_setter_touches_horizons_only_witness :
  Line_set_horizon (PyGeoPoint 1) (mkWorld sample_heap (mkLine 7 false None None [0; 1]))
  = (Raise TypeError, mkWorld sample_heap (mkLine 7 false None None [0; 1])).
Proof.
  apply (proj2 (horizon_setter_touches_horizons_only
                  (mkWorld sample_heap (mkLine 7 false None None [0; 1]))));
    intros; discriminate.
Defined.

(** ** What the constructor makes of a list of points *)

Lemma refs_of_points l : refs_of (map PyGeoPoint l) = l.
Proof. induction l as [|r l IH]; simpl; [reflexivity|now rewrite IH]. Qed.

Lemma all_points l :
  existsb (fun p => negb (is_GeoPoint p)) (map PyGeoPoint l) = false.
Proof. induction l as [|r l IH]; simpl; [reflexivity|assumption]. Qed.

(** X13.  The constructor, given distinct points none of which has a NaN
    coordinate, keeps what the single pass leaves of them.  When the last of
    these lies on the place of the first it is dropped and the line is
    closed whatever flag was given; otherwise all of them stay and [closed]
    is the flag given. *)
Theorem constructor_folds_a_ring h (c : bool) o (l : list ref) x t :
  NoDup l ->
  (forall r, In r l -> same_place h r r = true) ->
  single_pass h l = x :: t ->
  exists h',
    new_Line h c (horizon_obj o) (map PyGeoPoint l)
    = (Ok tt,
       mkWorld h'
         (mkLine 0
            (if same_place h x (last t x) then true else c) o
            (match o with Some _ => None | None => Some (-1)%Z end)
            (if same_place h x (last t x) then removelast (x :: t) else x :: t))).
Proof.
  intros Hnd _ Hpass. rewrite Line_init_spec by apply all_points.
  rewrite refs_of_points. unfold renormalize.
  set (w := mkWorld h (mkLine 0 c o _ l)).
  pose proof (remove_doubled_points_spec w Hnd) as Hrdp.
  simpl heap in Hrdp. simpl points in Hrdp. rewrite Hpass in Hrdp.
  destruct (same_place h x (last t x)).
  - rewrite (bind_ok _ _ _ _ _ Hrdp).
    match goal with
    | |- exists _, check_line ?w1 = _ =>
        destruct (check_line_spec w1) as (h' & E & _)
    end.
    exists h'. exact E.
  - rewrite (bind_ok _ _ _ _ _ Hrdp).
    match goal with
    | |- exists _, check_line ?w1 = _ =>
        destruct (check_line_spec w1) as (h' & E & _)
    end.
    exists h'. exact E.
Qed.

Lemma constructor_folds_a_ring_witness :
  exists h',
    new_Line sample_heap false PyNone (map PyGeoPoint [0; 1; 2; 4])
    = (Ok tt, mkWorld h' (mkLine 0 true None (Some (-1)%Z) [0; 1; 2])).
Proof.
  apply (constructor_folds_a_ring sample_heap false None [0; 1; 2; 4] 0 [1; 2; 4]).
  - repeat (constructor; [simpl; intuition discriminate|]). constructor.
  - intros r [<-|[<-|[<-|[<-|[]]]]]; reflexivity.
  - reflexivity.
Defined.

(** ** Dropping the z value *)

Lemma upd_same h r p : upd h r p r = p.
Proof. unfold upd. now rewrite Nat.eqb_refl. Qed.

Lemma upd_other h r p r' : r' <> r -> upd h r p r' = h r'.
Proof. intros H. unfold upd. now destruct (Nat.eqb_spec r' r). Qed.

(** X14.  Once [del_z] has run on two distinct points with the same
    easting and northing, the comparison takes them for duplicates whatever
    altitudes they had stored: on the line of these two points the pass
    removes the later one. *)
Theorem del_z_makes_duplicates (w : world) (a b : ref) :
  a <> b ->
  points (self w) = [a; b] ->
  (east (heap w a) =? east (heap w b))%float = true ->
  (north (heap w a) =? north (heap w b))%float = true ->
  exists h',
    (del_z a ;; del_z b ;; remove_adjacent [a; b]) w
    = (Ok tt, mkWorld h' (set_points [a] (self w)))
    /\ alt (h' a) = 0%float /\ alt (h' b) = 0%float
    /\ has_z (h' a) = false /\ has_z (h' b) = false.
Proof.
  intros Hab E He Hn.
  unfold bind at 1, del_z at 1, modify_point. unfold bind at 1, del_z at 1, modify_point.
  simpl heap. simpl self.
  match goal with
  | |- exists _, remove_adjacent _ ?x = _ /\ _ => set (w1 := x)
  end.
  assert (Ha : heap w1 a
               = mkGeoPoint (id (heap w a)) (east (heap w a)) (north (heap w a)) 0 false
                   (hor (heap w a)) (horizon_id (heap w a)) (line_id (heap w a))
                   (line_pos (heap w a))).
  { unfold w1. simpl. rewrite upd_other by assumption. apply upd_same. }
  assert (Hb : heap w1 b
               = mkGeoPoint (id (heap w b)) (east (heap w b)) (north (heap w b)) 0 false
                   (hor (heap w b)) (horizon_id (heap w b)) (line_id (heap w b))
                   (line_pos (heap w b))).
  { unfold w1. simpl. rewrite upd_same. now rewrite upd_other by congruence. }
  assert (Hsame : same_place (heap w1) a b = true).
  { unfold same_place, coord_of, coord_eqb. rewrite Ha, Hb. simpl.
    now rewrite He, Hn. }
  exists (heap w1). split.
  - assert (E1 : points (self w1) = [a; b]) by exact E.
    assert (Hnd : NoDup (points (self w1))) by (rewrite E1; now apply NoDup_pair).
    pose proof (remove_adjacent_spec w1 Hnd) as Hspec.
    rewrite E1 in Hspec. unfold single_pass, pass_after in Hspec.
    rewrite Hsame in Hspec. exact Hspec.
  - rewrite Ha, Hb. repeat split.
Qed.

Lemma del_z_makes_duplicates_witness :
  exists h',
    (del_z 6 ;; del_z 7 ;; remove_adjacent [6; 7])
      (mkWorld sample_heap (mkLine 7 false None None [6; 7]))
    = (Ok tt, mkWorld h' (mkLine 7 false None None [6]))
    /\ alt (h' 6) = 0%float /\ alt (h' 7) = 0%float
    /\ has_z (h' 6) = false /\ has_z (h' 7) = false.
Proof.
  apply (del_z_makes_duplicates
           (mkWorld sample_heap (mkLine 7 false None None [6; 7])) 6 7);
    try reflexivity.
  discriminate.
Defined.

(** ** The queries for points *)

Lemma insert_point_by_id_perm x l : Permutation (x :: l) (insert_point_by_id x l).
Proof.
  induction l as [|y t IH]; simpl; [reflexivity|].
  destruct (id x <=? id y)%Z; [reflexivity|].
  rewrite perm_swap. now constructor.
Qed.

Lemma order_points_by_id_perm l : Permutation l (order_points_by_id l).
Proof.
  induction l as [|x t IH]; simpl; [constructor|].
  rewrite <- insert_point_by_id_perm. now constructor.
Qed.

Lemma insert_point_by_id_sorted x l :
  Sorted point_by_id l -> Sorted point_by_id (insert_point_by_id x l).
Proof.
  induction 1 as [|y t Ht IH Hy]; simpl.
  - repeat constructor.
  - destruct (id x <=? id y)%Z eqn:E.
    + apply Z.leb_le in E. constructor; [now constructor|]. now constructor.
    + apply Z.leb_gt in E. constructor; [assumption|].
      destruct t as [|z t]; simpl.
      * constructor. unfold point_by_id. lia.
      * destruct (id x <=? id z)%Z; constructor; [unfold point_by_id; lia|].
        now inversion Hy.
Qed.

Lemma order_points_by_id_sorted l : Sorted point_by_id (order_points_by_id l).
Proof.
  induction l as [|x t IH]; simpl; [constructor|].
  now apply insert_point_by_id_sorted.
Qed.

Lemma point_by_id_trans : Relations_1.Transitive point_by_id.
Proof. intros a b c. unfold point_by_id. lia. Qed.

Lemma insert_point_by_id_below x l :
  Forall (point_by_id x) l -> insert_point_by_id x l = x :: l.
Proof.
  destruct l as [|y t]; [reflexivity|]. intros H. inversion H as [|y' t' Hy _]; subst.
  simpl. unfold point_by_id in Hy. apply Z.leb_le in Hy. now rewrite Hy.
Qed.

Lemma Forall_filter_keeps {A} (P : A -> Prop) f l : Forall P l -> Forall P (filter f l).
Proof.
  induction 1 as [|x l Hx Hl IH]; simpl; [constructor|].
  destruct (f x); [now constructor|assumption].
Qed.

(** Filtering a list sorted by [id] before or after a row is put in its
    place gives the same list. *)
Lemma filter_insert_point_by_id f x l :
  Sorted point_by_id l ->
  filter f (insert_point_by_id x l)
  = if f x then insert_point_by_id x (filter f l) else filter f l.
Proof.
  induction 1 as [|y t Ht IH Hy]; simpl.
  - now destruct (f x).
  - destruct (id x <=? id y)%Z eqn:E.
    + simpl. destruct (f x); [|reflexivity].
      rewrite insert_point_by_id_below; [reflexivity|].
      apply Z.leb_le in E.
      assert (Hall : Forall (point_by_id x) (y :: t)).
      { constructor; [exact E|].
        assert (Hs : Sorted point_by_id (y :: t)) by now constructor.
        apply Sorted_StronglySorted in Hs; [|exact point_by_id_trans].
        inversion Hs as [|y' t' _ Hyt]; subst.
        eapply Forall_impl; [|exact Hyt]. intros z Hz.
        unfold point_by_id in *. lia. }
      apply (Forall_filter_keeps _ f) in Hall. exact Hall.
    + simpl. rewrite IH. destruct (f y), (f x); simpl; try reflexivity.
      now rewrite E.
Qed.

Lemma filter_order_points_by_id f l :
  filter f (order_points_by_id l) = order_points_by_id (filter f l).
Proof.
  induction l as [|x t IH]; simpl; [reflexivity|].
  rewrite filter_insert_point_by_id by apply order_points_by_id_sorted.
  rewrite IH. now destruct (f x).
Qed.

Lemma filter_twice {A} (f g : A -> bool) l :
  filter f (filter g l) = filter (fun x => g x && f x) l.
Proof.
  induction l as [|x l IH]; simpl; [reflexivity|].
  destruct (g x); simpl; [|assumption].
  destruct (f x); now rewrite IH.
Qed.

(** X15.  The query for the points without a line inside an extent
    returns the rows of the point table whose [line_id] is -1 and whose
    easting and northing lie in the closed rectangle, each as often as it is
    in the table, by ascending [id]; an argument that is no session raises
    [TypeError]. *)
Theorem points_without_lines_in_extent db minE maxE minN maxN :
  load_in_extent_without_lines_from_db None minE maxE minN maxN = Raise TypeError
  /\ exists result,
       load_in_extent_without_lines_from_db (Some db) minE maxE minN maxN = Ok result
       /\ Permutation result
            (filter (fun p => (line_id p =? -1)%Z && in_extent minE maxE minN maxN p)
               (geopoints db))
       /\ Sorted point_by_id result
       /\ (forall p,
             In p result <->
             In p (geopoints db) /\ line_id p = (-1)%Z
             /\ (minE <=? east p)%float = true /\ (east p <=? maxE)%float = true
             /\ (minN <=? north p)%float = true /\ (north p <=? maxN)%float = true).
Proof.
  split; [reflexivity|]. eexists. split; [reflexivity|].
  assert (Hperm : Permutation
            (order_points_by_id
               (filter (fun p => (line_id p =? -1)%Z)
                  (filter (fun p => between (north p) minN maxN)
                     (filter (fun p => between (east p) minE maxE) (geopoints db)))))
            (filter (fun p => (line_id p =? -1)%Z && in_extent minE maxE minN maxN p)
               (geopoints db))).
  { rewrite <- order_points_by_id_perm. rewrite !filter_twice.
    erewrite filter_ext; [reflexivity|].
    intros p. unfold in_extent. simpl.
    destruct (between (east p) minE maxE), (between (north p) minN maxN),
      (line_id p =? -1)%Z; reflexivity. }
  split; [exact Hperm|]. split; [apply order_points_by_id_sorted|].
  intros p. split.
  - intros Hp. apply (Permutation_in _ Hperm) in Hp.
    apply filter_In in Hp as [Hin Htest].
    unfold in_extent, between in Htest.
    rewrite !andb_true_iff, Z.eqb_eq in Htest. tauto.
  - intros (Hin & Hid & H1 & H2 & H3 & H4).
    apply (Permutation_in _ (Permutation_sym Hperm)).
    apply filter_In. split; [assumption|].
    unfold in_extent, between. rewrite !andb_true_iff, Z.eqb_eq. tauto.
Qed.

(** X16.  The query for the points without a line inside an extent
    returns what is left of the list of all points without a line when the
    points outside the rectangle are struck from it, and what is left of the
    list of all points inside the rectangle when the points of lines are
    struck from it. *)
Theorem extent_query_narrows_the_listings db minE maxE minN maxN :
  exists everything,
    load_all_without_lines_from_db (Some db) = Ok everything
    /\ load_in_extent_without_lines_from_db (Some db) minE maxE minN maxN
       = Ok (filter (in_extent minE maxE minN maxN) everything)
    /\ load_in_extent_without_lines_from_db (Some db) minE maxE minN maxN
       = Ok (filter (fun p => (line_id p =? -1)%Z)
               (AbstractGeoObject_load_in_extent_from_db db minE maxE minN maxN)).
Proof.
  eexists. split; [reflexivity|]. split.
  - unfold load_in_extent_without_lines_from_db. f_equal.
    rewrite filter_order_points_by_id. f_equal.
    rewrite !filter_twice. apply filter_ext. intros p. unfold in_extent.
    destruct (between (east p) minE maxE), (between (north p) minN maxN),
      (line_id p =? -1)%Z; reflexivity.
  - unfold load_in_extent_without_lines_from_db,
      AbstractGeoObject_load_in_extent_from_db. f_equal.
    now rewrite filter_order_points_by_id.
Qed.

Lemma extent_query_narrows_the_listings_aux db minE maxE minN maxN :
  load_in_extent_without_lines_from_db (Some db) minE maxE minN maxN
  = Ok (filter (fun p => (line_id p =? -1)%Z)
          (AbstractGeoObject_load_in_extent_from_db db minE maxE minN maxN)).
Proof.
  unfold load_in_extent_without_lines_from_db,
    AbstractGeoObject_load_in_extent_from_db. f_equal.
  now rewrite filter_order_points_by_id.
Qed.

Lemma lines_query_In db minE maxE minN maxN :
  exists result log,
    load_in_extent_from_db (Some db) minE maxE minN maxN = (Ok result, log)
    /\ forall l, In l result <->
                 In l (lines db) /\ line_in_extent db minE maxE minN maxN l = true.
Proof.
  unfold load_in_extent_from_db.
  destruct (py_set (select_line_ids db minE maxE minN maxN)) as [|i ids] eqn:E.
  - exists [], [SelectLineIds minE maxE minN maxN]. split; [reflexivity|].
    intros l. rewrite <- filter_In, nothing_in_extent by assumption. reflexivity.
  - eexists _, _. split; [reflexivity|]. intros l. unfold select_lines.
    rewrite <- E, <- filter_In.
    rewrite <- (filter_ext _ _ (in_set_is_in_extent db minE maxE minN maxN)).
    split; apply Permutation_in;
      [symmetry; apply order_by_id_perm|apply order_by_id_perm].
Qed.

Lemma generic_extent_query_In db minE maxE minN maxN p :
  In p (AbstractGeoObject_load_in_extent_from_db db minE maxE minN maxN) <->
  In p (geopoints db) /\ in_extent minE maxE minN maxN p = true.
Proof.
  unfold AbstractGeoObject_load_in_extent_from_db, in_extent.
  rewrite andb_true_iff. split.
  - intros Hp. apply (Permutation_in _ (Permutation_sym (order_points_by_id_perm _))) in Hp.
    rewrite !filter_In in Hp. tauto.
  - intros Hp. apply (Permutation_in _ (order_points_by_id_perm _)).
    rewrite !filter_In. tauto.
Qed.

(** X17.  The query for the lines in an extent and the query for all
    points in that extent agree: a line of the table is returned exactly
    when the point query returns a point attached to it, and every point
    the point query returns is either one the query for points without
    lines returns or a point whose lines are all returned. *)
Theorem lines_query_agrees_with_point_query db minE maxE minN maxN :
  exists result log unattached,
    load_in_extent_from_db (Some db) minE maxE minN maxN = (Ok result, log)
    /\ load_in_extent_without_lines_from_db (Some db) minE maxE minN maxN = Ok unattached
    /\ (forall l,
          In l result <->
          In l (lines db) /\
          exists p,
            In p (AbstractGeoObject_load_in_extent_from_db db minE maxE minN maxN)
            /\ line_id p = l_id l /\ line_id p <> (-1)%Z)
    /\ (forall p,
          In p (AbstractGeoObject_load_in_extent_from_db db minE maxE minN maxN) ->
          In p unattached
          \/ (line_id p <> (-1)%Z
              /\ forall l, In l (lines db) -> l_id l = line_id p -> In l result)).
Proof.
  destruct (lines_query_In db minE maxE minN maxN) as (result & log & E & Hin).
  pose proof (extent_query_narrows_the_listings_aux db minE maxE minN maxN) as Hun.
  exists result, log,
    (filter (fun p => (line_id p =? -1)%Z)
       (AbstractGeoObject_load_in_extent_from_db db minE maxE minN maxN)).
  split; [exact E|]. split; [exact Hun|].
  assert (Hline : forall l,
            line_in_extent db minE maxE minN maxN l = true <->
            exists p,
              In p (AbstractGeoObject_load_in_extent_from_db db minE maxE minN maxN)
              /\ line_id p = l_id l /\ line_id p <> (-1)%Z).
  { intros l. unfold line_in_extent. rewrite existsb_exists.
    split; intros (p & Hp & H); exists p.
    - rewrite !andb_true_iff, negb_true_iff, Z.eqb_eq, Z.eqb_neq in H.
      rewrite generic_extent_query_In. unfold in_extent.
      rewrite andb_true_iff. tauto.
    - apply generic_extent_query_In in Hp as [Hp Hext].
      unfold in_extent in Hext. apply andb_true_iff in Hext.
      split; [assumption|].
      rewrite !andb_true_iff, negb_true_iff, Z.eqb_eq, Z.eqb_neq. tauto. }
  split.
  - intros l. rewrite Hin, Hline. reflexivity.
  - intros p Hp. destruct (Z.eqb_spec (line_id p) (-1)) as [Hid|Hid].
    + left. apply filter_In. split; [assumption|]. now apply Z.eqb_eq.
    + right. split; [assumption|]. intros l Hl Hlid.
      apply Hin. split; [assumption|]. apply Hline. exists p. auto.
Qed.

(** ** When the renormalization returns *)

(** X18.  On a sequence that holds no object twice the renormalization
    returns exactly when the sequence has a point: it never fails on a line
    with points. *)
Theorem renormalization_returns_iff_points (w : world) :
  NoDup (points (self w)) ->
  fst (renormalize w) = Ok tt <-> points (self w) <> [].
Proof.
  intros Hnd. unfold renormalize.
  pose proof (remove_doubled_points_spec w Hnd) as Hrdp.
  destruct (points (self w)) as [|a t0] eqn:E.
  - simpl in Hrdp. rewrite (bind_raise _ _ _ _ _ Hrdp). simpl.
    split; [discriminate|congruence].
  - simpl single_pass in Hrdp. cbv beta iota in Hrdp.
    split; [discriminate|]. intros _.
    destruct (same_place (heap w) a (last (pass_after (heap w) a t0) a));
      rewrite (bind_ok _ _ _ _ _ Hrdp);
      match goal with
      | |- fst (check_line ?w1) = _ => destruct (check_line_spec w1) as (h' & -> & _)
      end; reflexivity.
Qed.

Lemma renormalization_returns_iff_points_witness :
  fst (renormalize (mkWorld sample_heap (mkLine 7 false None None [0; 4; 1]))) = Ok tt
  <-> [0; 4; 1] <> [].
Proof.
  apply (renormalization_returns_iff_points
           (mkWorld sample_heap (mkLine 7 false None None [0; 4; 1]))).
  simpl. repeat (constructor; [simpl; intuition discriminate|]). constructor.
Defined.

(** X19.  The renormalization never removes the first point of a line
    and keeps another: when it returns with points left, the first of them
    is the point that was first before (for a sequence that held no object
    twice). *)
Theorem first_point_stays_first (w w' : world) x t :
  NoDup (points (self w)) ->
  renormalize w = (Ok tt, w') ->
  points (self w') = x :: t ->
  exists t0, points (self w) = x :: t0.
Proof.
  intros Hnd Hrun E'. unfold renormalize in Hrun.
  apply bind_Ok_inv in Hrun as ([] & w1 & Hrdp & Hcheck).
  rewrite (check_line_self _ _ Hcheck) in E'.
  rewrite remove_doubled_points_spec in Hrdp by assumption.
  destruct (points (self w)) as [|a t0] eqn:E; [discriminate|].
  exists t0. f_equal. simpl single_pass in Hrdp. cbv beta iota in Hrdp.
  remember (pass_after (heap w) a t0) as p eqn:Ep.
  destruct (same_place (heap w) a (last p a)); injection Hrdp as <-.
  - change (removelast (a :: p) = x :: t) in E'.
    destruct p as [|b p]; [discriminate|].
    change (a :: removelast (b :: p) = x :: t) in E'. congruence.
  - change (a :: p = x :: t) in E'. congruence.
Qed.

Lemma first_point_stays_first_witness :
  exists t0, [4; 0; 1; 2] = 4 :: t0.
Proof.
  apply (first_point_stays_first
           (mkWorld sample_heap (mkLine 7 false None None [4; 0; 1; 2]))
           (snd (renormalize (mkWorld sample_heap (mkLine 7 false None None [4; 0; 1; 2]))))
           4 [1; 2]).
  - simpl. repeat (constructor; [simpl; intuition discriminate|]). constructor.
  - reflexivity.
  - reflexivity.
Defined.

(** ** Where a deletion or a pass takes more than it is asked for *)

(** On the line [0; 1; 4; 2] the point on (1,1) is deleted, and with it
    the point 4, which does not pass the test of the scan: it lies on the
    place of point 0 and has become its neighbour.  On the line [0; 1] the
    deletion of the point on (1,1) leaves no point and a closed line. *)
Lemma delete_by_coordinates_takes_a_second_point :
  points (self (snd (new_Line sample_heap false PyNone
                       [PyGeoPoint 0; PyGeoPoint 1; PyGeoPoint 4; PyGeoPoint 2])))
  = [0; 1; 4; 2]
  /\ matches_at 0.5 1 1 0 sample_heap 4 = false
  /\ fst (delete_point_by_coordinates 0.5 1 1 0
            (snd (new_Line sample_heap false PyNone
                    [PyGeoPoint 0; PyGeoPoint 1; PyGeoPoint 4; PyGeoPoint 2])))
     = Ok tt
  /\ points (self (snd (delete_point_by_coordinates 0.5 1 1 0
                          (snd (new_Line sample_heap false PyNone
                                  [PyGeoPoint 0; PyGeoPoint 1; PyGeoPoint 4;
                                   PyGeoPoint 2])))))
     = [0; 2]
  /\ points (self (snd (delete_point_by_coordinates 0.5 1 1 0
                          (snd (new_Line sample_heap false PyNone
                                  [PyGeoPoint 0; PyGeoPoint 1])))))
     = []
  /\ closed (self (snd (delete_point_by_coordinates 0.5 1 1 0
                          (snd (new_Line sample_heap false PyNone
                                  [PyGeoPoint 0; PyGeoPoint 1])))))
     = true.
Proof. repeat split. Qed.

